(** * inst-death: Ableton project extraction and Hapax definition encoding

    A shallow embedding of [als_parser.py] and [hapax_generator.py].

    - Python [str] values are modelled as [string]; one [ascii] stands for one
      character (code points 0..255).
    - An [xml.etree.ElementTree.Element] is a tag, an attribute dictionary and
      an ordered list of children.
    - [Element.find] / [Element.findall] are modelled for the path shapes the
      parser uses: [.] followed by [//tag] and [/tag] steps.
    - Python exceptions are an explicit error result.  The debug [print]
      calls of [_extract_drum_pads] write to stdout only and are left out. *)

From Stdlib Require Import ZArith Ascii String.
From stdpp Require Import base option list gmap strings pretty sorting.

Local Open Scope string_scope.
Local Open Scope list_scope.
Local Open Scope nat_scope.

(** ** Exceptions *)

Inductive exn : Type :=
  | ValueError. (* int() on a non-numeric literal; range() with step 0 *)

Inductive result (A : Type) : Type :=
  | Ok (a : A)
  | Raise (e : exn).
Arguments Ok {A} a.
Arguments Raise {A} e.

#[global] Instance result_ret : MRet result := λ A a, Ok a.
#[global] Instance result_bind : MBind result := λ A B k m,
  match m with
  | Ok a => k a
  | Raise e => Raise e
  end.

(** ** The element tree *)

Module ET.

#[warnings="-register-all"]
Inductive Element : Type :=
  | Elem (tag : string) (attrib : gmap string string) (children : list Element).

Definition tag (e : Element) : string :=
  match e with Elem t _ _ => t end.
Definition attrib (e : Element) : gmap string string :=
  match e with Elem _ a _ => a end.
Definition children (e : Element) : list Element :=
  match e with Elem _ _ cs => cs end.

(** [elem.get(key, default)] *)
Definition get (e : Element) (key dflt : string) : string :=
  default dflt (attrib e !! key).

(** [elem.iter()]: the element and its whole subtree, in document order. *)
Fixpoint iter (e : Element) : list Element :=
  match e with
  | Elem _ _ cs => e :: flat_map iter cs
  end.

(** [elem.iter(tag)] without the element itself, as the [//tag] step of
    ElementPath selects it. *)
Definition descendants (t : string) (e : Element) : list Element :=
  filter (λ d, tag d = t) (flat_map iter (children e)).

(** The [/tag] step. *)
Definition child_nodes (t : string) (e : Element) : list Element :=
  filter (λ c, tag c = t) (children e).

Inductive step : Type :=
  | Desc (t : string)    (* //t *)
  | Child (t : string).  (* /t  *)

Definition select (s : step) (e : Element) : list Element :=
  match s with
  | Desc t => descendants t e
  | Child t => child_nodes t e
  end.

(** [elem.findall(path)] for a path [.] followed by the given steps. *)
Definition findall (path : list step) (e : Element) : list Element :=
  fold_left (λ res s, flat_map (select s) res) path [e].

(** [elem.find(path)]: first match or [None]. *)
Definition find (path : list step) (e : Element) : option Element :=
  head (findall path e).

End ET.

(** ** Python built-ins used by the two modules *)

Module Py.
Local Open Scope Z_scope.

(** [f"{n}"] for an [int]. *)
Definition str_of_int (n : Z) : string := pretty n.
Definition str_of_nat (n : nat) : string := pretty n.

Definition code (c : ascii) : nat := nat_of_ascii c.

(** [str.isspace] on one character: TAB..CR, FS..US, space, NEL, NBSP. *)
Definition isspace (c : ascii) : bool :=
  let n := code c in
  ((9 <=? n) && (n <=? 13) || (28 <=? n) && (n <=? 32)
   || (n =? 133) || (n =? 160))%nat.

(** Whitespace that [int(str)] skips: TAB..CR and space; NEL and NBSP are
    first rewritten to a space. *)
Definition int_space (c : ascii) : bool :=
  let n := code c in
  ((9 <=? n) && (n <=? 13) || (n =? 32) || (n =? 133) || (n =? 160))%nat.

Section strip.
Variable ws : ascii → bool.

Fixpoint lstrip_with (s : string) : string :=
  match s with
  | EmptyString => EmptyString
  | String c s' => if ws c then lstrip_with s' else s
  end.

Fixpoint rstrip_with (s : string) : string :=
  match s with
  | EmptyString => EmptyString
  | String c s' =>
      match rstrip_with s' with
      | EmptyString => if ws c then EmptyString else String c EmptyString
      | r => String c r
      end
  end.

Definition strip_with (s : string) : string := rstrip_with (lstrip_with s).
End strip.

(** [s.strip()] *)
Definition strip (s : string) : string := strip_with isspace s.

(** [s.replace(a, b)] for single characters [a], [b]. *)
Fixpoint replace_char (a b : ascii) (s : string) : string :=
  match s with
  | EmptyString => EmptyString
  | String c s' =>
      String (if Ascii.eqb c a then b else c) (replace_char a b s')
  end.

(** [s.replace(a, '')] for a single character [a]. *)
Fixpoint remove_char (a : ascii) (s : string) : string :=
  match s with
  | EmptyString => EmptyString
  | String c s' =>
      if Ascii.eqb c a then remove_char a s' else String c (remove_char a s')
  end.

(** [s[:n]] *)
Fixpoint take_str (n : nat) (s : string) : string :=
  match n, s with
  | S n', String c s' => String c (take_str n' s')
  | _, _ => EmptyString
  end.

(** [s.startswith(p)] *)
Definition startswith (s p : string) : bool := String.prefix p s.

(** ["\n".join(lines)] *)
Fixpoint join (sep : string) (ls : list string) : string :=
  match ls with
  | [] => EmptyString
  | [l] => l
  | l :: ls' => l +:+ sep +:+ join sep ls'
  end.

(** ["\n"], the one-character string holding a line feed. *)
Definition newline : string := String "010" EmptyString.

(** [s.split(sep)] for a single character [sep]. *)
Fixpoint split_char (sep : ascii) (s : string) : list string :=
  match s with
  | EmptyString => [EmptyString]
  | String c s' =>
      if Ascii.eqb c sep then EmptyString :: split_char sep s'
      else
        match split_char sep s' with
        | [] => [String c EmptyString]
        | piece :: pieces => String c piece :: pieces
        end
  end.

Definition is_digit (c : ascii) : bool :=
  ((48 <=? code c) && (code c <=? 57))%nat.

Definition digit_val (c : ascii) : Z := Z.of_nat (code c - 48).

(** Digits of a decimal literal, single underscores allowed between digits. *)
Fixpoint int_digits (s : string) (acc : Z) (after_digit : bool) : option Z :=
  match s with
  | EmptyString => if after_digit then Some acc else None
  | String c s' =>
      if is_digit c then int_digits s' (10 * acc + digit_val c) true
      else if Ascii.eqb c "_" then
        if after_digit then int_digits s' acc false else None
      else None
  end.

Fixpoint digit_count (s : string) : nat :=
  match s with
  | EmptyString => 0%nat
  | String c s' => ((if is_digit c then 1 else 0) + digit_count s')%nat
  end.

(** [sys.get_int_max_str_digits()] *)
Definition int_max_str_digits : nat := 4300%nat.

Definition int_unsigned (s : string) : option Z :=
  if (int_max_str_digits <? digit_count s)%nat then None
  else int_digits s 0 false.

(** [int(s)] for a [str]: [None] stands for [ValueError]. *)
Definition int_of_str (s : string) : option Z :=
  match strip_with int_space s with
  | String "+" b => int_unsigned b
  | String "-" b => Z.opp <$> int_unsigned b
  | b => int_unsigned b
  end.

End Py.

(** ** Track records *)

(** A pad dictionary [{"note": ..., "name": ...}]. *)
Record pad : Type := Pad { note : Z; name : string }.

(** The ["type"] of a track dictionary together with the payload key that
    goes with it (["pads"] or ["macros"]). *)
Inductive track_kind : Type :=
  | drum_rack (pads : list pad)
  | instrument_rack (macros : list string).

Record track : Type := Track {
  index : nat;
  track_name : string;
  kind : track_kind
}.

Definition nonempty (s : string) : bool :=
  match s with EmptyString => false | _ => true end.

(** ** hapax_generator.py *)

Module Hapax.
Local Open Scope Z_scope.

(** [_sanitize_name] *)
Definition _sanitize_name (name : string) : string :=
  let sanitized := Py.remove_char "013" (Py.replace_char "010" " " name) in
  let sanitized :=
    if (32 <? String.length sanitized)%nat then Py.take_str 32 sanitized
    else sanitized in
  Py.strip sanitized.

(** The length limit of [_sanitize_name] on its own. *)
Definition cut_32 (s : string) : string :=
  if (32 <? String.length s)%nat then Py.take_str 32 s else s.

(** One lane line: [f"{i}:NULL:NULL:{note} {name}"]. *)
Definition lane_line (i : nat) (p : pad) : string :=
  Py.str_of_nat i +:+ ":NULL:NULL:" +:+ Py.str_of_int (note p) +:+ " "
    +:+ _sanitize_name (name p).

(** [for i, pad in enumerate(pads, start=1): lines.append(...)], entered
    with the counter at [i]. *)
Fixpoint lane_loop (i : nat) (pads : list pad) (lines : list string)
  : list string :=
  match pads with
  | [] => lines
  | p :: pads' => lane_loop (S i) pads' (lines ++ [lane_line i p])
  end.

Definition drum_track_name (t : track) (part_number : option Z) : string :=
  let track_name := _sanitize_name (track_name t) in
  match part_number with
  | Some n => track_name +:+ "_p" +:+ Py.str_of_int n
  | None => track_name
  end.

Definition drum_header (t : track) (midi_channel : Z)
    (part_number : option Z) : list string :=
  [ "VERSION 1";
    "TRACKNAME " +:+ drum_track_name t part_number;
    "TYPE DRUM";
    "OUTPORT USBD";
    "OUTCHAN " +:+ Py.str_of_int midi_channel;
    "";
    "[DRUMLANES]" ].

(** The list [lines] of [generate_drum_def] just before the join. *)
Definition generate_drum_def_lines (t : track) (midi_channel : Z)
    (pads : list pad) (part_number : option Z) : list string :=
  let lines := drum_header t midi_channel part_number in
  let lines := lane_loop 1%nat pads lines in
  lines ++ ["[/DRUMLANES]"].

(** [generate_drum_def] *)
Definition generate_drum_def (t : track) (midi_channel : Z)
    (pads : list pad) (part_number : option Z) : string :=
  Py.join Py.newline
    (generate_drum_def_lines t midi_channel pads part_number).

(** [len(range(start, stop, step))] for a non-zero step. *)
Definition range_len (start stop step : Z) : Z :=
  if (0 <? step) && (start <? stop) then 1 + (stop - 1 - start) / step
  else if (step <? 0) && (stop <? start) then 1 + (start - 1 - stop) / (- step)
  else 0.

(** [range(start, stop, step)]: a zero step raises [ValueError]. *)
Definition range (start stop step : Z) : result (list Z) :=
  if step =? 0 then Raise ValueError
  else Ok ((λ k, start + Z.of_nat k * step)
             <$> seq 0%nat (Z.to_nat (range_len start stop step))).

(** A slice bound as Python normalises it against a length. *)
Definition slice_bound (len k : Z) : Z :=
  if k <? 0 then Z.max 0 (k + len) else Z.min k len.

(** [l[a:b]] *)
Definition slice {A} (a b : Z) (l : list A) : list A :=
  let len := Z.of_nat (length l) in
  let a' := slice_bound len a in
  let b' := slice_bound len b in
  take (Z.to_nat (b' - a')) (drop (Z.to_nat a') l).

(** [split_pads_into_groups] *)
Definition split_pads_into_groups {A} (pads : list A) (group_size : Z)
  : result (list (list A)) :=
  match pads with
  | [] => Ok []
  | _ =>
      starts ← range 0 (Z.of_nat (length pads)) group_size;
      Ok (fold_left (λ groups i, groups ++ [slice i (i + group_size) pads])
            starts [])
  end.

(** [track.get('macros', [])] *)
Definition track_macros (t : track) : list string :=
  match kind t with
  | instrument_rack macros => macros
  | drum_rack _ => []
  end.

(** [for i, macro_name in enumerate(macros[:8], start=1): lines.append(...)],
    entered with the counter at [i]. *)
Fixpoint cc_loop (i : nat) (macros : list string) (lines : list string)
  : list string :=
  match macros with
  | [] => lines
  | macro_name :: macros' =>
      let sanitized := _sanitize_name macro_name in
      cc_loop (S i) macros' (lines ++ [Py.str_of_nat i +:+ " " +:+ sanitized])
  end.

(** [range(start, stop)] *)
Definition range_1 (start stop : Z) : list Z :=
  (λ k, start + Z.of_nat k) <$> seq 0%nat (Z.to_nat (stop - start)).

(** [for i in range(...): lines.append(f"{i} CC:{i}")] *)
Definition assign_loop (idxs : list Z) (lines : list string) : list string :=
  fold_left
    (λ lines i, lines ++ [Py.str_of_int i +:+ " CC:" +:+ Py.str_of_int i])
    idxs lines.

Definition instrument_header (t : track) (midi_channel : Z) : list string :=
  [ "VERSION 1";
    "TRACKNAME " +:+ _sanitize_name (track_name t);
    "TYPE POLY";
    "OUTPORT USBD";
    "OUTCHAN " +:+ Py.str_of_int midi_channel;
    "";
    "[CC]" ].

(** The list [lines] of [generate_instrument_def] just before the join. *)
Definition generate_instrument_def_lines (t : track) (midi_channel : Z)
  : list string :=
  let macros := track_macros t in
  let lines := instrument_header t midi_channel in
  let lines := cc_loop 1%nat (take 8 macros) lines in
  let lines := lines ++ ["[/CC]"] in
  let lines := lines ++ [""] in
  let lines := lines ++ ["[ASSIGN]"] in
  let lines :=
    assign_loop
      (range_1 1 (Z.min (Z.of_nat (length macros) + 1) 9)) lines in
  lines ++ ["[/ASSIGN]"].

(** [generate_instrument_def] *)
Definition generate_instrument_def (t : track) (midi_channel : Z) : string :=
  Py.join Py.newline (generate_instrument_def_lines t midi_channel).

End Hapax.

(** ** als_parser.py *)

Module Als.
Import ET.

(** [f'Macro {i + 1}'] *)
Definition macro_placeholder (i : nat) : string :=
  "Macro " +:+ Py.str_of_nat (i + 1).

(** The body of the first loop of [_extract_macros]: the name appended for
    slot [i]. *)
Definition first_pass_slot (macro_controls : Element) (i : nat) : string :=
  match find [Desc ("MacroControls." +:+ Py.str_of_nat i)] macro_controls with
  | Some macro_elem =>
      let custom_name :=
        match find [Desc ("MacroDisplayNames." +:+ Py.str_of_nat i)] macro_elem with
        | Some c => Some c
        | None => find [Desc "CustomName"] macro_elem
        end in
      let fallback :=
        match find [Desc "Name"] macro_elem with
        | Some name_elem => get name_elem "Value" (macro_placeholder i)
        | None => macro_placeholder i
        end in
      match custom_name with
      | Some c =>
          let name := get c "Value" "" in
          if nonempty name then name else fallback
      | None => fallback
      end
  | None => macro_placeholder i
  end.

(** The first pass: nothing is collected without a [Macros] node. *)
Definition first_pass (instrument_rack : Element) : list string :=
  match find [Desc "Macros"] instrument_rack with
  | Some macro_controls =>
      fold_left (λ macros i, macros ++ [first_pass_slot macro_controls i])
        (seq 0 8) []
  | None => []
  end.

(** [not macros or all(m.startswith('Macro ') for m in macros)] *)
Definition second_pass_runs (macros : list string) : bool :=
  match macros with
  | [] => true
  | _ => forallb (λ m, Py.startswith m "Macro ") macros
  end.

(** One iteration of the second loop. *)
Definition second_pass_step (instrument_rack : Element)
    (macros : list string) (i : nat) : list string :=
  match find [Desc ("MacroDisplayNames." +:+ Py.str_of_nat i)] instrument_rack with
  | Some display_name =>
      let name := get display_name "Value" "" in
      if nonempty name then
        if (i <? length macros)%nat then <[i := name]> macros
        else macros ++ [name]
      else macros
  | None => macros
  end.

Definition second_pass (instrument_rack : Element) (macros : list string)
  : list string :=
  fold_left (second_pass_step instrument_rack) (seq 0 8) macros.

(** [while len(macros) < 8: macros.append(f'Macro {len(macros) + 1}')] *)
Fixpoint pad_loop (fuel : nat) (macros : list string) : list string :=
  match fuel with
  | O => macros
  | S fuel' =>
      if (length macros <? 8)%nat
      then pad_loop fuel' (macros ++ [macro_placeholder (length macros)])
      else macros
  end.

(** The last two statements of [_extract_macros]; every iteration of the
    loop lengthens the list, so [8 - len(macros)] iterations suffice. *)
Definition ensure_8 (macros : list string) : list string :=
  take 8 (pad_loop (8 - length macros) macros).

(** [_extract_macros] *)
Definition _extract_macros (instrument_rack : Element) : list string :=
  let macros := first_pass instrument_rack in
  let macros :=
    if second_pass_runs macros then second_pass instrument_rack macros
    else macros in
  ensure_8 macros.

(** [int(receiving_note.get('Value', 0))] *)
Definition receiving_note_value (receiving_note : Element) : result Z :=
  match attrib receiving_note !! "Value" with
  | Some v =>
      match Py.int_of_str v with
      | Some n => Ok n
      | None => Raise ValueError
      end
  | None => Ok 0%Z
  end.

(** The pad name lookup of one [DrumBranch]. *)
Definition branch_pad_name (branch : Element) : string :=
  match find [Desc "Name"] branch with
  | Some name_elem =>
      match find [Desc "EffectiveName"] name_elem with
      | Some effective => get effective "Value" ""
      | None =>
          match find [Desc "UserName"] name_elem with
          | Some user_name => get user_name "Value" ""
          | None => ""
          end
      end
  | None => ""
  end.

(** The body of the loop over branches: [Ok None] when the branch is
    skipped, [Ok (Some p)] when [p] is appended. *)
Definition pad_of_branch (branch : Element) : result (option pad) :=
  match find [Desc "ReceivingNote"] branch with
  | None => Ok None
  | Some receiving_note =>
      note ← receiving_note_value receiving_note;
      let pad_name := branch_pad_name branch in
      if nonempty pad_name then Ok (Some (Pad note pad_name))
      else Ok None
  end.

Fixpoint pads_loop (branches : list Element) (pads : list pad)
  : result (list pad) :=
  match branches with
  | [] => Ok pads
  | branch :: rest =>
      p ← pad_of_branch branch;
      pads_loop rest (match p with Some x => pads ++ [x] | None => pads end)
  end.

(** [pads.sort(key=lambda x: x['note'], reverse=True)]: a stable sort, so
    pads with equal notes keep their relative order. *)
Fixpoint insert_desc (p : pad) (l : list pad) : list pad :=
  match l with
  | [] => [p]
  | q :: l' =>
      if (note q <=? note p)%Z then p :: l else q :: insert_desc p l'
  end.

Definition sort_desc (l : list pad) : list pad := foldr insert_desc [] l.

(** [_extract_drum_pads] *)
Definition _extract_drum_pads (drum_rack : Element) : result (list pad) :=
  match find [Desc "Branches"] drum_rack with
  | None => Ok []
  | Some branches =>
      pads ← pads_loop (findall [Desc "DrumBranch"] branches) [];
      Ok (sort_desc pads)
  end.

(** [f'Track {index}'] *)
Definition default_track_name (index : nat) : string :=
  "Track " +:+ Py.str_of_nat index.

(** The name lookup at the head of [_parse_midi_track]. *)
Definition resolve_track_name (midi_track : Element) (index : nat) : string :=
  let name_elem :=
    match find [Desc "Name"; Child "EffectiveName"] midi_track with
    | Some e => Some e
    | None => find [Desc "Name"; Child "UserName"] midi_track
    end in
  match name_elem with
  | Some e => get e "Value" (default_track_name index)
  | None => default_track_name index
  end.

(** [_parse_midi_track] *)
Definition _parse_midi_track (midi_track : Element) (index : nat)
  : result (option track) :=
  let track_name := resolve_track_name midi_track index in
  match find [Desc "DeviceChain"; Desc "DrumGroupDevice"] midi_track with
  | Some drum_rack_elem =>
      pads ← _extract_drum_pads drum_rack_elem;
      Ok (Some (Track index track_name (drum_rack pads)))
  | None =>
      match find [Desc "DeviceChain"; Desc "InstrumentGroupDevice"] midi_track with
      | Some rack =>
          Ok (Some (Track index track_name (instrument_rack (_extract_macros rack))))
      | None => Ok None
      end
  end.

(** The loop of [parse_als] over the [MidiTrack] nodes. *)
Fixpoint tracks_loop (midi_tracks : list Element) (track_index : nat)
    (tracks : list track) : result (list track) :=
  match midi_tracks with
  | [] => Ok tracks
  | midi_track :: rest =>
      track_info ← _parse_midi_track midi_track track_index;
      match track_info with
      | Some t => tracks_loop rest (track_index + 1) (tracks ++ [t])
      | None => tracks_loop rest track_index tracks
      end
  end.

(** [parse_als] from the parsed document root on. *)
Definition parse_root (root : Element) : result (list track) :=
  tracks_loop (findall [Desc "Tracks"; Child "MidiTrack"] root) 1 [].

End Als.

(** ** app.py: the parts of [generate] that do not touch the request or the
    archive *)

Module App.

(** [_make_safe_filename] *)
Definition _make_safe_filename (name : string) : string :=
  let safe := Py.replace_char "092" "-" (Py.replace_char "/" "-" name) in
  let safe := Py.replace_char "*" "-" (Py.replace_char ":" "-" safe) in
  let safe := Py.replace_char "034" "-" (Py.replace_char "?" "-" safe) in
  let safe := Py.replace_char ">" "-" (Py.replace_char "<" "-" safe) in
  let safe := Py.replace_char "|" "-" safe in
  Py.strip safe.

(** [l[i]] for an integer index: a negative index counts from the end, and
    [None] stands for [IndexError]. *)
Definition getitem {A} (l : list A) (i : Z) : option A :=
  let len := Z.of_nat (length l) in
  if (0 <=? i)%Z then l !! Z.to_nat i
  else if (- len <=? i)%Z then l !! Z.to_nat (len + i)
  else None.

(** [[all_pads[i] for i in pad_indices if i < len(all_pads)]]; [None] stands
    for the [IndexError] of an index below [-len(all_pads)]. *)
Fixpoint selected_pads (all_pads : list pad) (pad_indices : list Z)
  : option (list pad) :=
  match pad_indices with
  | [] => Some []
  | i :: rest =>
      if (i <? Z.of_nat (length all_pads))%Z then
        p ← getitem all_pads i;
        ps ← selected_pads all_pads rest;
        Some (p :: ps)
      else selected_pads all_pads rest
  end.

(** An entry written to the archive: file name and content. *)
Definition entry : Type := string * string.

(** The loop over [enumerate(groups, start=1)] of the default drum export,
    entered with the counter at [i]; [n] is [len(groups)]. *)
Fixpoint auto_split_loop (t : track) (midi_channel : Z) (n : nat) (i : nat)
    (groups : list (list pad)) (written : list entry) : list entry :=
  match groups with
  | [] => written
  | group :: rest =>
      let content :=
        Hapax.generate_drum_def t midi_channel group
          (if 1 <? n then Some (Z.of_nat i) else None) in
      let safe_name := _make_safe_filename (track_name t) in
      let part_suffix :=
        if 1 <? n then "_part" +:+ Py.str_of_nat i else "" in
      auto_split_loop t midi_channel n (S i) rest
        (written ++ [(safe_name +:+ part_suffix +:+ ".txt", content)])
  end.

(** [track.get('pads', [])] *)
Definition track_pads (t : track) : list pad :=
  match kind t with
  | drum_rack pads => pads
  | instrument_rack _ => []
  end.

(** The default branch of the drum export of [generate] (no [pad_groups] in
    the selection): the entries written for one drum track. *)
Definition drum_auto_split (t : track) (midi_channel : Z)
  : result (list entry) :=
  let all_pads := track_pads t in
  groups ← Hapax.split_pads_into_groups all_pads 8%Z;
  Ok (auto_split_loop t midi_channel (length groups) 1 groups []).

End App.

(** ** Sample documents *)

Module Samples.
Import ET.

(** [<tag Value="v"/>] *)
Definition leaf (t v : string) : Element :=
  Elem t {[ "Value" := v ]} [].

(** [<tag> children </tag>] *)
Definition node (t : string) (cs : list Element) : Element :=
  Elem t ∅ cs.

(** A [DrumBranch] with an effective name and a receiving note. *)
Definition branch (nm v : string) : Element :=
  node "DrumBranch"
    [ node "Name" [leaf "EffectiveName" nm];
      node "BranchInfo" [leaf "ReceivingNote" v] ].

Definition drum_device (branches : list Element) : Element :=
  node "DrumGroupDevice" [node "Branches" branches].

(** Pads with internal notes 60, 36 and 92, in that order. *)
Definition rack_60_36_92 : Element :=
  drum_device [branch "Snare" "60"; branch "Tom" "36"; branch "Kick" "92"].

(** A branch whose [ReceivingNote] element carries no [Value] attribute. *)
Definition branch_no_value : Element :=
  node "DrumBranch"
    [ node "Name" [leaf "EffectiveName" "Kick"];
      node "BranchInfo" [node "ReceivingNote" []] ].

(** A branch without any [ReceivingNote] element. *)
Definition branch_no_note : Element :=
  node "DrumBranch" [node "Name" [leaf "EffectiveName" "Kick"]].

Definition midi_track (nm : list Element) (devices : list Element) : Element :=
  node "MidiTrack"
    [ node "Name" nm;
      node "DeviceChain" [node "DeviceChain" [node "Devices" devices]] ].

Definition live_set (tracks : list Element) : Element :=
  node "Ableton" [node "LiveSet" [node "Tracks" tracks]].

(** A well-formed document with a non-numeric receiving note. *)
Definition doc_bad_note : Element :=
  live_set [midi_track [leaf "EffectiveName" "Drums"]
              [drum_device [branch "Kick" "x"]]].

(** A drum rack nested in an instrument rack, as Live saves it. *)
Definition track_both : Element :=
  midi_track [leaf "EffectiveName" "Kit"]
    [node "InstrumentGroupDevice"
       [node "Branches"
          [node "InstrumentBranch"
             [node "DeviceChain" [rack_60_36_92]]]]].

(** The same nesting with a non-numeric receiving note in the drum rack. *)
Definition track_both_bad_note : Element :=
  midi_track [leaf "EffectiveName" "Kit"]
    [node "InstrumentGroupDevice"
       [node "Branches"
          [node "InstrumentBranch"
             [node "DeviceChain" [drum_device [branch "Kick" "x"]]]]]].

(** An instrument rack whose first macro has a name of its own and that has
    no display names under the rack. *)
Definition rack_named_first : Element :=
  node "InstrumentGroupDevice"
    [node "Macros" [node "MacroControls.0" [leaf "Name" "Cutoff"]]].

(** A track whose effective name is the empty string. *)
Definition track_empty_name : Element :=
  midi_track [leaf "EffectiveName" ""; leaf "UserName" "Lead"]
    [node "InstrumentGroupDevice" []].

(** An instrument rack whose first macro is called "Macro Cutoff" and that
    also has a display name for the second macro directly under the rack. *)
Definition rack_prefix_only : Element :=
  node "InstrumentGroupDevice"
    [ node "Macros"
        [node "MacroControls.0" [leaf "Name" "Macro Cutoff"]];
      leaf "MacroDisplayNames.1" "Reso" ].

(** An instrument rack without a [Macros] node and with a single display
    name, for the fourth macro. *)
Definition rack_shallow_3 : Element :=
  node "InstrumentGroupDevice" [leaf "MacroDisplayNames.3" "Drive"].


(** Two pads on the same note around a pad on a lower one. *)
Definition rack_same_note : Element :=
  drum_device [branch "A" "60"; branch "B" "36"; branch "C" "60"].

(** A track without any rack. *)
Definition track_plain : Element :=
  midi_track [leaf "EffectiveName" "Piano"] [node "Operator" []].

End Samples.

(** ** Predicates of the statements *)

(** A pad that carries a name. *)
Definition named (p : pad) : Prop := name p ≠ "".

(** Descending note order. *)
Definition note_ge (p q : pad) : Prop := (note q ≤ note p)%Z.

(** The note id of a branch: the [Value] attribute of its [ReceivingNote],
    when both are there. *)
Definition note_id (branch : ET.Element) : option string :=
  ET.find [ET.Desc "ReceivingNote"] branch ≫= λ rn, ET.attrib rn !! "Value".

(** The eight placeholders ["Macro 1"] .. ["Macro 8"]. *)
Definition placeholders : list string := Als.macro_placeholder <$> seq 0 8.

(** The characters [_make_safe_filename] replaces: slash, backslash, colon,
    star, question mark, double quote, angle brackets and bar. *)
Definition unsafe_chars : list ascii :=
  ["/"; "092"; ":"; "*"; "?"; "034"; "<"; ">"; "|"]%char.

(** The name the second pass of [_extract_macros] finds for slot [i]: the
    non-empty [Value] of the first [MacroDisplayNames.{i}] node. *)
Definition shallow_name (instrument_rack : ET.Element) (i : nat)
  : option string :=
  match ET.find [ET.Desc ("MacroDisplayNames." +:+ Py.str_of_nat i)]
          instrument_rack with
  | Some display_name =>
      let name := ET.get display_name "Value" "" in
      if nonempty name then Some name else None
  | None => None
  end.

(** [d] lies strictly below [e] in the tree. *)
Inductive under : ET.Element → ET.Element → Prop :=
  | under_child d e : d ∈ ET.children e → under d e
  | under_deeper d c e : under d c → c ∈ ET.children e → under d e.

(** A [ReceivingNote] element with a [Value] attribute has an integer
    literal there. *)
Definition numeric_note (e : ET.Element) : bool :=
  if String.eqb (ET.tag e) "ReceivingNote" then
    match ET.attrib e !! "Value" with
    | Some v => bool_decide (is_Some (Py.int_of_str v))
    | None => true
    end
  else true.

(** Every [ReceivingNote] of the subtree is numeric. *)
Definition numeric_notes (e : ET.Element) : bool :=
  forallb numeric_note (ET.iter e).

(** ** Evaluation checks *)

Example int_of_str_60 : Py.int_of_str "60" = Some 60%Z.
Proof. reflexivity. Qed.
Example int_of_str_neg : Py.int_of_str " -1_0 " = Some (-10)%Z.
Proof. reflexivity. Qed.
Example int_of_str_bad : Py.int_of_str "x" = None.
Proof. reflexivity. Qed.
Example int_of_str_empty : Py.int_of_str "" = None.
Proof. reflexivity. Qed.
Example str_of_int_neg : Py.str_of_int (-12)%Z = "-12".
Proof. reflexivity. Qed.
Example strip_ex : Py.strip "  a b  " = "a b".
Proof. reflexivity. Qed.
Example sanitize_ex :
  Hapax._sanitize_name (" Kick" +:+ String "010" "Drum" +:+ String "013" " ")
  = "Kick Drum".
Proof. reflexivity. Qed.
Example groups_ex :
  Hapax.split_pads_into_groups [1;2;3;4;5;6;7;8;9;10] 8%Z
  = Ok [[1;2;3;4;5;6;7;8]; [9;10]].
Proof. reflexivity. Qed.
Example groups_zero :
  Hapax.split_pads_into_groups [1;2] 0%Z = Raise ValueError.
Proof. reflexivity. Qed.
Example drum_def_ex :
  Hapax.generate_drum_def (Track 1 "Kit" (drum_rack [])) 10%Z
    [Pad 92%Z "Kick"; Pad 60%Z "Snare"] (Some 2%Z)
  = "VERSION 1
TRACKNAME Kit_p2
TYPE DRUM
OUTPORT USBD
OUTCHAN 10

[DRUMLANES]
1:NULL:NULL:92 Kick
2:NULL:NULL:60 Snare
[/DRUMLANES]".
Proof. reflexivity. Qed.
Example newline_ex : Py.newline = "
".
Proof. reflexivity. Qed.
Example join_ex : Py.join Py.newline ["a"; "b"; ""] = "a
b
".
Proof. reflexivity. Qed.
Example split_ex : Py.split_char "010" (String "a" (String "010" "b")) = ["a"; "b"].
Proof. reflexivity. Qed.
Example join_sep_ex : Py.join ", " ["a"; "b"; "c"] = "a, b, c".
Proof. reflexivity. Qed.
Example pads_60_36_92 :
  Als._extract_drum_pads Samples.rack_60_36_92
  = Ok [Pad 92 "Kick"; Pad 60 "Snare"; Pad 36 "Tom"].
Proof. vm_compute. reflexivity. Qed.
Example pads_no_value :
  Als._extract_drum_pads (Samples.drum_device [Samples.branch_no_value])
  = Ok [Pad 0 "Kick"].
Proof. vm_compute. reflexivity. Qed.
Example parse_bad_note : Als.parse_root Samples.doc_bad_note = Raise ValueError.
Proof. vm_compute. reflexivity. Qed.
Example parse_both :
  Als.parse_root (Samples.live_set [Samples.track_both])
  = Ok [Track 1 "Kit" (drum_rack [Pad 92 "Kick"; Pad 60 "Snare"; Pad 36 "Tom"])].
Proof. vm_compute. reflexivity. Qed.
Example parse_empty_name :
  Als.parse_root (Samples.live_set [Samples.track_empty_name])
  = Ok [Track 1 "" (instrument_rack
      ["Macro 1"; "Macro 2"; "Macro 3"; "Macro 4";
       "Macro 5"; "Macro 6"; "Macro 7"; "Macro 8"])].
Proof. vm_compute. reflexivity. Qed.
Example macros_prefix_only :
  Als._extract_macros Samples.rack_prefix_only
  = ["Macro Cutoff"; "Reso"; "Macro 3"; "Macro 4";
     "Macro 5"; "Macro 6"; "Macro 7"; "Macro 8"].
Proof. vm_compute. reflexivity. Qed.
Example macros_named_first :
  Als.second_pass_runs (Als.first_pass Samples.rack_named_first) = false
  ∧ Als._extract_macros Samples.rack_named_first
    = ["Cutoff"; "Macro 2"; "Macro 3"; "Macro 4";
       "Macro 5"; "Macro 6"; "Macro 7"; "Macro 8"].
Proof. by vm_compute. Qed.
Example macros_shallow_3 :
  Als._extract_macros Samples.rack_shallow_3
  = ["Drive"; "Macro 2"; "Macro 3"; "Macro 4";
     "Macro 5"; "Macro 6"; "Macro 7"; "Macro 8"].
Proof. vm_compute. reflexivity. Qed.

(** ** Name sanitization *)

Section strip_facts.
Variable ws : ascii → bool.

Lemma lstrip_with_length s :
  String.length (Py.lstrip_with ws s) ≤ String.length s.
Proof.
  induction s as [|c s IH]; simpl; [lia|].
  destruct (ws c); simpl; lia.
Qed.

Lemma rstrip_with_length s :
  String.length (Py.rstrip_with ws s) ≤ String.length s.
Proof.
  induction s as [|c s IH]; simpl; [lia|].
  destruct (Py.rstrip_with ws s); simpl in *.
  - destruct (ws c); simpl; lia.
  - lia.
Qed.

Lemma strip_with_length s :
  String.length (Py.strip_with ws s) ≤ String.length s.
Proof.
  unfold Py.strip_with.
  etrans; [apply rstrip_with_length | apply lstrip_with_length].
Qed.

(** What is left of a left strip is empty or starts with a character
    that is not whitespace. *)
Lemma lstrip_with_head s :
  match Py.lstrip_with ws s with
  | EmptyString => True
  | String c _ => ws c = false
  end.
Proof.
  induction s as [|c s IH]; simpl; [done|].
  destruct (ws c) eqn:E; [done | by simpl].
Qed.

Lemma lstrip_with_fixed c s :
  ws c = false → Py.lstrip_with ws (String c s) = String c s.
Proof. intros E. simpl. by rewrite E. Qed.

(** A right strip keeps the first character when it is not whitespace. *)
Lemma rstrip_with_head c s :
  ws c = false →
  ∃ r, Py.rstrip_with ws (String c s) = String c r.
Proof.
  intros E. simpl. destruct (Py.rstrip_with ws s) as [|d r].
  - rewrite E. by eexists.
  - by eexists.
Qed.

Lemma rstrip_with_idemp s :
  Py.rstrip_with ws (Py.rstrip_with ws s) = Py.rstrip_with ws s.
Proof.
  induction s as [|c s IH]; simpl; [done|].
  destruct (Py.rstrip_with ws s) as [|d r] eqn:Er.
  - destruct (ws c) eqn:E; simpl; [done | by rewrite E].
  - change (Py.rstrip_with ws (String c (String d r)))
      with (match Py.rstrip_with ws (String d r) with
            | EmptyString =>
                if ws c then EmptyString else String c EmptyString
            | r' => String c r'
            end).
    by rewrite IH.
Qed.

Lemma strip_with_idemp s :
  Py.strip_with ws (Py.strip_with ws s) = Py.strip_with ws s.
Proof.
  unfold Py.strip_with.
  pose proof (lstrip_with_head s) as Hh.
  destruct (Py.lstrip_with ws s) as [|c t] eqn:El; [done|].
  destruct (rstrip_with_head c t Hh) as [r Hr].
  rewrite Hr, lstrip_with_fixed by done.
  rewrite <-Hr. apply rstrip_with_idemp.
Qed.

(** Stripping only drops characters. *)
Lemma lstrip_with_In a s :
  In a (list_ascii_of_string (Py.lstrip_with ws s)) →
  In a (list_ascii_of_string s).
Proof.
  induction s as [|c s IH]; simpl; [done|].
  destruct (ws c); simpl; tauto.
Qed.

Lemma rstrip_with_In a s :
  In a (list_ascii_of_string (Py.rstrip_with ws s)) →
  In a (list_ascii_of_string s).
Proof.
  induction s as [|c s IH]; simpl; [done|].
  destruct (Py.rstrip_with ws s) as [|d r].
  - destruct (ws c); simpl; tauto.
  - simpl in *. tauto.
Qed.

Lemma strip_with_In a s :
  In a (list_ascii_of_string (Py.strip_with ws s)) →
  In a (list_ascii_of_string s).
Proof. intros H. by apply lstrip_with_In, rstrip_with_In. Qed.
End strip_facts.

Lemma take_str_length n s : String.length (Py.take_str n s) ≤ n.
Proof.
  revert s. induction n as [|n IH]; intros [|c s]; simpl; try lia.
  specialize (IH s). lia.
Qed.

Lemma take_str_In a n s :
  In a (list_ascii_of_string (Py.take_str n s)) →
  In a (list_ascii_of_string s).
Proof.
  revert s. induction n as [|n IH]; intros [|c s]; simpl; try tauto.
  intros [->|H]; [by left | right; by apply IH].
Qed.

Lemma replace_char_absent a b s :
  ¬ In a (list_ascii_of_string s) → Py.replace_char a b s = s.
Proof.
  induction s as [|c s IH]; simpl; [done|]. intros H.
  destruct (Ascii.eqb_spec c a) as [->|_]; [tauto|].
  f_equal. apply IH. tauto.
Qed.

Lemma remove_char_absent a s :
  ¬ In a (list_ascii_of_string s) → Py.remove_char a s = s.
Proof.
  induction s as [|c s IH]; simpl; [done|]. intros H.
  destruct (Ascii.eqb_spec c a) as [->|_]; [tauto|].
  f_equal. apply IH. tauto.
Qed.

Lemma replace_char_not_In a b s :
  a ≠ b → ¬ In a (list_ascii_of_string (Py.replace_char a b s)).
Proof.
  intros Hab. induction s as [|c s IH]; simpl; [tauto|].
  destruct (Ascii.eqb_spec c a) as [->|Hc]; intros [E|H]; congruence || tauto.
Qed.

Lemma remove_char_not_In a s :
  ¬ In a (list_ascii_of_string (Py.remove_char a s)).
Proof.
  induction s as [|c s IH]; simpl; [tauto|].
  destruct (Ascii.eqb_spec c a) as [->|Hc]; [done|].
  simpl. intros [E|H]; congruence || tauto.
Qed.

Lemma remove_char_In a b s :
  In b (list_ascii_of_string (Py.remove_char a s)) →
  In b (list_ascii_of_string s).
Proof.
  induction s as [|c s IH]; simpl; [done|].
  destruct (Ascii.eqb_spec c a) as [->|Hc]; simpl; tauto.
Qed.

Lemma cut_32_length s : String.length (Hapax.cut_32 s) ≤ 32.
Proof.
  unfold Hapax.cut_32. destruct (Nat.ltb_spec 32 (String.length s)); [|lia].
  apply take_str_length.
Qed.

Lemma cut_32_In a s :
  In a (list_ascii_of_string (Hapax.cut_32 s)) → In a (list_ascii_of_string s).
Proof. unfold Hapax.cut_32. case_match; [apply take_str_In | done]. Qed.

Lemma cut_32_short s : String.length s ≤ 32 → Hapax.cut_32 s = s.
Proof.
  unfold Hapax.cut_32. intros H.
  destruct (Nat.ltb_spec 32 (String.length s)); [lia | done].
Qed.

Lemma sanitize_name_unfold x :
  Hapax._sanitize_name x
  = Py.strip (Hapax.cut_32 (Py.remove_char "013" (Py.replace_char "010" " " x))).
Proof. reflexivity. Qed.

Lemma sanitize_name_length x : String.length (Hapax._sanitize_name x) ≤ 32.
Proof.
  rewrite sanitize_name_unfold. unfold Py.strip.
  etrans; [apply strip_with_length | apply cut_32_length].
Qed.

Lemma sanitize_name_no_newline x :
  ¬ In "010"%char (list_ascii_of_string (Hapax._sanitize_name x)).
Proof.
  rewrite sanitize_name_unfold. intros H.
  apply strip_with_In, cut_32_In, remove_char_In in H.
  by apply replace_char_not_In in H.
Qed.

Lemma sanitize_name_no_return x :
  ¬ In "013"%char (list_ascii_of_string (Hapax._sanitize_name x)).
Proof.
  rewrite sanitize_name_unfold. intros H.
  apply strip_with_In, cut_32_In in H.
  by apply remove_char_not_In in H.
Qed.

(** C9: sanitizing twice gives what sanitizing once gives, and a sanitized
    name has at most 32 characters. *)
Theorem sanitize_name_idempotent_bounded (x : string) :
  Hapax._sanitize_name (Hapax._sanitize_name x) = Hapax._sanitize_name x
  ∧ String.length (Hapax._sanitize_name x) ≤ 32.
Proof.
  split; [|apply sanitize_name_length].
  rewrite (sanitize_name_unfold (Hapax._sanitize_name x)).
  rewrite replace_char_absent by apply sanitize_name_no_newline.
  rewrite remove_char_absent by apply sanitize_name_no_return.
  rewrite cut_32_short by apply sanitize_name_length.
  rewrite sanitize_name_unfold. apply strip_with_idemp.
Qed.

(** ** Pad groups *)

Lemma fold_left_snoc {A B} (f : B → A) (l : list B) (acc : list A) :
  fold_left (λ acc i, acc ++ [f i]) l acc = acc ++ (f <$> l).
Proof.
  revert acc. induction l as [|x l IH]; intros acc; simpl.
  - by rewrite app_nil_r.
  - rewrite IH. by rewrite <-app_assoc.
Qed.

(** A forward slice of [g] items from a non-negative start. *)
Lemma slice_take_drop {A} (a g : Z) (l : list A) :
  (0 ≤ a)%Z → (0 ≤ g)%Z →
  Hapax.slice a (a + g) l = take (Z.to_nat g) (drop (Z.to_nat a) l).
Proof.
  intros Ha Hg. unfold Hapax.slice, Hapax.slice_bound.
  destruct (Z.ltb_spec a 0); [lia|].
  destruct (Z.ltb_spec (a + g) 0); [lia|].
  destruct (decide (a ≤ Z.of_nat (length l))%Z) as [Hle|Hgt].
  - rewrite (Z.min_l a) by done.
    rewrite <-(take_ge (drop (Z.to_nat a) l)
                 (Z.to_nat (Z.of_nat (length l) - a))) at 2
      by (rewrite length_drop; lia).
    rewrite take_take. f_equal. lia.
  - rewrite !Z.min_r by lia.
    rewrite (drop_ge l (Z.to_nat a)) by lia.
    rewrite drop_ge by lia. by rewrite !take_nil.
Qed.

(** Consecutive chunks of [g] items put back together. *)
Lemma concat_chunks {A} (g cnt : nat) (l : list A) :
  concat ((λ k, take g (drop (k * g) l)) <$> seq 0 cnt) = take (cnt * g) l.
Proof.
  induction cnt as [|cnt IH].
  - by rewrite take_0.
  - rewrite seq_S, fmap_app, concat_app, IH. simpl.
    rewrite app_nil_r, take_take_drop. f_equal. lia.
Qed.

Lemma range_len_covers (n g : Z) :
  (0 < n)%Z → (0 < g)%Z → (n ≤ Hapax.range_len 0 n g * g)%Z.
Proof.
  intros Hn Hg. unfold Hapax.range_len.
  destruct (Z.ltb_spec 0 g); [|lia].
  destruct (Z.ltb_spec 0 n); [|lia]. simpl.
  pose proof (Z.mod_pos_bound (n - 1 - 0) g Hg).
  pose proof (Z.div_mod (n - 1 - 0) g). nia.
Qed.

Lemma range_len_nonneg (a b s : Z) : (0 ≤ Hapax.range_len a b s)%Z.
Proof.
  unfold Hapax.range_len.
  destruct (Z.ltb_spec 0 s), (Z.ltb_spec a b); simpl;
    try (destruct (Z.ltb_spec s 0), (Z.ltb_spec b a); simpl); try lia.
  - assert (0 ≤ (b - 1 - a) / s)%Z by (apply Z.div_pos; lia). lia.
  - assert (0 ≤ (a - 1 - b) / - s)%Z by (apply Z.div_pos; lia). lia.
Qed.

(** The groups for a positive group size, as chunks. *)
Lemma split_pads_chunks {A} (pads : list A) (group_size : Z) :
  (0 < group_size)%Z → pads ≠ [] →
  Hapax.split_pads_into_groups pads group_size
  = Ok ((λ k, take (Z.to_nat group_size) (drop (k * Z.to_nat group_size) pads))
          <$> seq 0 (Z.to_nat (Hapax.range_len 0 (Z.of_nat (length pads))
                                 group_size))).
Proof.
  intros Hg Hne. unfold Hapax.split_pads_into_groups.
  destruct pads as [|p pads']; [done|].
  set (pads := p :: pads'). unfold Hapax.range.
  destruct (Z.eqb_spec group_size 0); [lia|]. simpl mbind.
  unfold mbind, result_bind. f_equal.
  rewrite fold_left_snoc, app_nil_l, <-list_fmap_compose.
  apply list_fmap_ext. intros _ k _. simpl.
  rewrite slice_take_drop by lia. do 2 f_equal. lia.
Qed.

(** C10: for a positive group size the groups, concatenated in order, are
    the pad list again, and no group exceeds the group size; no pads give no
    groups, and ten pads in groups of eight give groups of 8 and 2. *)
Theorem split_pads_total_partition {A} (pads : list A) (group_size : Z) :
  (0 < group_size)%Z →
  ∃ groups,
    Hapax.split_pads_into_groups pads group_size = Ok groups
    ∧ concat groups = pads
    ∧ Forall (λ g, (Z.of_nat (length g) ≤ group_size)%Z) groups
    ∧ (pads = [] → groups = [])
    ∧ (length pads = 10 → group_size = 8%Z → length <$> groups = [8; 2]).
Proof.
  intros Hg. destruct (decide (pads = [])) as [->|Hne].
  { exists []. repeat split; try done. }
  eexists. split; [by apply split_pads_chunks|].
  split; [|split; [|split]].
  - rewrite concat_chunks. apply take_ge.
    assert (0 < length pads) by (destruct pads; [done | simpl; lia]).
    pose proof (range_len_covers (Z.of_nat (length pads)) group_size).
    pose proof (range_len_nonneg 0 (Z.of_nat (length pads)) group_size).
    nia.
  - apply Forall_fmap, Forall_forall. intros k _. simpl.
    rewrite length_take. lia.
  - done.
  - intros Hlen ->. rewrite Hlen. simpl.
    rewrite !length_take, !length_drop, Hlen. done.
Qed.

Lemma split_pads_total_partition_witness :
  ∃ groups,
    Hapax.split_pads_into_groups [1; 2; 3; 4; 5; 6; 7; 8; 9; 10] 8%Z
    = Ok groups
    ∧ concat groups = [1; 2; 3; 4; 5; 6; 7; 8; 9; 10]
    ∧ length <$> groups = [8; 2].
Proof.
  destruct (split_pads_total_partition [1; 2; 3; 4; 5; 6; 7; 8; 9; 10] 8%Z)
    as (groups & Hs & Hc & _ & _ & Hl); [lia|].
  exists groups. repeat split; [done | done | by apply Hl].
Defined.

(** ** Drum definitions *)

(** The lane loop appends one line per pad, numbered from its entry
    counter on. *)
Lemma lane_loop_spec (i : nat) (pads : list pad) (lines : list string) :
  Hapax.lane_loop i pads lines
  = lines ++ imap (λ k p, Hapax.lane_line (i + k) p) pads.
Proof.
  revert i lines. induction pads as [|p pads IH]; intros i lines; simpl.
  - by rewrite app_nil_r.
  - rewrite IH, <-app_assoc. simpl. rewrite Nat.add_0_r.
    do 2 f_equal. apply imap_ext. intros k q _. simpl. f_equal. lia.
Qed.

(** ** Macro extraction: the result has eight entries *)

Lemma pad_loop_length (fuel : nat) (macros : list string) :
  8 ≤ length macros + fuel → 8 ≤ length (Als.pad_loop fuel macros).
Proof.
  revert macros. induction fuel as [|fuel IH]; intros macros H; simpl.
  - lia.
  - destruct (Nat.ltb_spec (length macros) 8); [|done].
    apply IH. rewrite length_app. simpl. lia.
Qed.

Lemma ensure_8_length (macros : list string) :
  length (Als.ensure_8 macros) = 8.
Proof.
  unfold Als.ensure_8. rewrite length_take.
  pose proof (pad_loop_length (8 - length macros) macros). lia.
Qed.


(** C2: [_extract_macros] returns eight entries for every rack, and the
    closing normalisation brings any collected list, however long, to eight
    entries. *)
Theorem extract_macros_length (instrument_rack : ET.Element)
    (collected : list string) :
  length (Als._extract_macros instrument_rack) = 8
  ∧ length (Als.ensure_8 collected) = 8
  ∧ length (Als.ensure_8 []) = 8
  ∧ length (Als.ensure_8 ["a"; "b"; "c"]) = 8
  ∧ length (Als.ensure_8 (replicate 20 "m")) = 8.
Proof.
  split_and!; apply ensure_8_length.
Qed.

(** ** Pad extraction: names and order *)

Lemma nonempty_true s : nonempty s = true → s ≠ "".
Proof. by destruct s. Qed.

Lemma pad_of_branch_named branch p :
  Als.pad_of_branch branch = Ok (Some p) → named p.
Proof.
  unfold Als.pad_of_branch. destruct (ET.find _ branch) as [rn|]; [|done].
  destruct (Als.receiving_note_value rn) as [n|]; simpl; [|done].
  destruct (nonempty (Als.branch_pad_name branch)) eqn:E; [|done].
  intros [= <-]. by apply nonempty_true.
Qed.

Lemma pads_loop_named branches acc pads :
  Forall named acc → Als.pads_loop branches acc = Ok pads → Forall named pads.
Proof.
  revert acc. induction branches as [|b bs IH]; intros acc Hacc; simpl.
  - by intros [= <-].
  - destruct (Als.pad_of_branch b) as [[p|]|] eqn:Eb; simpl; [| |done].
    + apply IH. apply Forall_app. split; [done|].
      apply Forall_singleton. by eapply pad_of_branch_named.
    + by apply IH.
Qed.

Lemma insert_desc_Permutation p l : Als.insert_desc p l ≡ₚ p :: l.
Proof.
  induction l as [|q l IH]; simpl; [done|].
  destruct (note q <=? note p)%Z; [done|].
  rewrite IH. apply Permutation_swap.
Qed.

Lemma sort_desc_Permutation l : Als.sort_desc l ≡ₚ l.
Proof.
  induction l as [|p l IH]; simpl; [done|].
  by rewrite insert_desc_Permutation, IH.
Qed.

Lemma insert_desc_sorted p l :
  StronglySorted note_ge l → StronglySorted note_ge (Als.insert_desc p l).
Proof.
  induction 1 as [|q l Hl IH Hq]; simpl.
  - repeat constructor.
  - destruct (Z.leb_spec (note q) (note p)) as [Hle|Hgt].
    + constructor; [by constructor|].
      constructor; [done|].
      eapply Forall_impl; [exact Hq|]. unfold note_ge. intros r Hr. lia.
    + constructor; [done|].
      rewrite insert_desc_Permutation. constructor; [|done].
      unfold note_ge. lia.
Qed.

Lemma sort_desc_sorted l : StronglySorted note_ge (Als.sort_desc l).
Proof.
  induction l as [|p l IH]; simpl; [constructor|].
  by apply insert_desc_sorted.
Qed.

(** ** Subtrees *)

Lemma Element_ind' (P : ET.Element → Prop) :
  (∀ t a cs, Forall P cs → P (ET.Elem t a cs)) → ∀ e, P e.
Proof.
  intros H. fix IH 1. intros [t a cs]. apply H.
  induction cs as [|c cs IHcs]; constructor; [apply IH | exact IHcs].
Qed.

Lemma iter_unfold e : ET.iter e = e :: flat_map ET.iter (ET.children e).
Proof. by destruct e. Qed.

Lemma iter_self e : e ∈ ET.iter e.
Proof. rewrite iter_unfold. left. Qed.

Lemma elem_of_flat_map {A B} (f : A → list B) (l : list A) (y : B) :
  y ∈ flat_map f l ↔ ∃ x, x ∈ l ∧ y ∈ f x.
Proof.
  rewrite !list_elem_of_In, in_flat_map.
  split; intros (x & Hx & Hy); exists x; by rewrite ?list_elem_of_In in *.
Qed.

(** Being in the subtree is transitive. *)
Lemma iter_trans e d x : d ∈ ET.iter e → x ∈ ET.iter d → x ∈ ET.iter e.
Proof.
  revert d x. induction e as [t a cs IH] using Element_ind'.
  intros d x Hd Hx. rewrite iter_unfold in Hd. simpl in Hd.
  apply elem_of_cons in Hd as [->|Hd]; [done|].
  apply elem_of_flat_map in Hd as (c & Hc & Hd).
  rewrite iter_unfold. simpl. right.
  apply elem_of_flat_map. exists c. split; [done|].
  rewrite Forall_forall in IH. by eapply IH.
Qed.

Lemma descendants_iter t e d : d ∈ ET.descendants t e → d ∈ ET.iter e.
Proof.
  unfold ET.descendants. rewrite list_elem_of_filter. intros [_ H].
  rewrite iter_unfold. by right.
Qed.

Lemma child_nodes_iter t e d : d ∈ ET.child_nodes t e → d ∈ ET.iter e.
Proof.
  unfold ET.child_nodes. rewrite list_elem_of_filter. intros [_ H].
  rewrite iter_unfold. right. apply elem_of_flat_map.
  exists d. split; [done | apply iter_self].
Qed.

Lemma select_iter s e d : d ∈ ET.select s e → d ∈ ET.iter e.
Proof. destruct s; [apply descendants_iter | apply child_nodes_iter]. Qed.

Lemma findall_from_iter path e res d :
  Forall (λ r, r ∈ ET.iter e) res →
  d ∈ fold_left (λ res s, flat_map (ET.select s) res) path res →
  d ∈ ET.iter e.
Proof.
  revert res. induction path as [|s path IH]; intros res Hres; simpl.
  - rewrite Forall_forall in Hres. apply Hres.
  - apply IH. apply Forall_forall. intros x Hx.
    apply elem_of_flat_map in Hx as (r & Hr & Hx).
    rewrite Forall_forall in Hres.
    eapply iter_trans; [by apply Hres | by eapply select_iter].
Qed.

(** Whatever a path selects lies in the subtree of the start element. *)
Lemma findall_iter path e d : d ∈ ET.findall path e → d ∈ ET.iter e.
Proof.
  intros H. eapply findall_from_iter; [|exact H].
  apply Forall_singleton, iter_self.
Qed.

Lemma find_findall path e d : ET.find path e = Some d → d ∈ ET.findall path e.
Proof.
  unfold ET.find. destruct (ET.findall path e); [done|].
  intros [= ->]. left.
Qed.

Lemma find_iter path e d : ET.find path e = Some d → d ∈ ET.iter e.
Proof. intros H. by eapply findall_iter, find_findall. Qed.

Lemma find_is_Some path e d :
  d ∈ ET.findall path e → is_Some (ET.find path e).
Proof.
  unfold ET.find. destruct (ET.findall path e); [by intros ?%elem_of_nil|].
  by eexists.
Qed.

Lemma under_iter d e : under d e → d ∈ flat_map ET.iter (ET.children e).
Proof.
  induction 1 as [d e Hd|d c e _ IH Hc]; apply elem_of_flat_map.
  - exists d. split; [done | apply iter_self].
  - exists c. split; [done|]. rewrite iter_unfold. by right.
Qed.

Lemma under_descendants d e :
  under d e → d ∈ ET.descendants (ET.tag d) e.
Proof.
  intros H. unfold ET.descendants. apply list_elem_of_filter.
  split; [done | by apply under_iter].
Qed.

Lemma find_desc_tag t e d :
  ET.find [ET.Desc t] e = Some d → ET.tag d = t.
Proof.
  intros H%find_findall. unfold ET.findall in H. simpl in H.
  rewrite app_nil_r in H. unfold ET.descendants in H.
  by apply list_elem_of_filter in H as [? _].
Qed.

(** ** Pad extraction returns when the notes are numeric *)

Lemma numeric_notes_spec e :
  numeric_notes e = true ↔ ∀ x, x ∈ ET.iter e → numeric_note x = true.
Proof.
  unfold numeric_notes. rewrite forallb_forall.
  by setoid_rewrite list_elem_of_In.
Qed.

Lemma numeric_notes_sub e d :
  numeric_notes e = true → d ∈ ET.iter e → numeric_notes d = true.
Proof.
  rewrite !numeric_notes_spec. intros He Hd x Hx.
  apply He. by eapply iter_trans.
Qed.

Lemma receiving_note_value_numeric rn :
  ET.tag rn = "ReceivingNote" → numeric_note rn = true →
  ∃ n, Als.receiving_note_value rn = Ok n.
Proof.
  unfold numeric_note, Als.receiving_note_value. intros ->. simpl.
  destruct (ET.attrib rn !! "Value") as [v|]; [|by eexists].
  intros [n Hn]%bool_decide_eq_true. rewrite Hn. by eexists.
Qed.

Lemma pad_of_branch_total branch :
  numeric_notes branch = true → ∃ r, Als.pad_of_branch branch = Ok r.
Proof.
  intros Hn. unfold Als.pad_of_branch.
  destruct (ET.find _ branch) as [rn|] eqn:Ef; [|by eexists].
  destruct (receiving_note_value_numeric rn) as [n ->].
  - by eapply find_desc_tag.
  - rewrite numeric_notes_spec in Hn. by eapply Hn, find_iter.
  - simpl. destruct (nonempty _); by eexists.
Qed.

Lemma pads_loop_total branches acc :
  Forall (λ b, numeric_notes b = true) branches →
  ∃ pads, Als.pads_loop branches acc = Ok pads.
Proof.
  intros H. revert acc. induction H as [|b bs Hb _ IH]; intros acc; simpl.
  - by eexists.
  - destruct (pad_of_branch_total b Hb) as [r ->]. simpl. apply IH.
Qed.

Lemma extract_drum_pads_total drum_rack_elem :
  numeric_notes drum_rack_elem = true →
  ∃ pads, Als._extract_drum_pads drum_rack_elem = Ok pads.
Proof.
  intros Hn. unfold Als._extract_drum_pads.
  destruct (ET.find _ drum_rack_elem) as [branches|] eqn:Ef; [|by eexists].
  destruct (pads_loop_total (ET.findall [ET.Desc "DrumBranch"] branches) [])
    as [pads ->]; [|by eexists].
  apply Forall_forall. intros b Hb.
  eapply numeric_notes_sub; [exact Hn|].
  eapply iter_trans; [by eapply find_iter | by apply findall_iter in Hb].
Qed.

(** C1: whatever [_extract_drum_pads] returns has no pad with an empty name
    and is in descending note order, and it does return when the receiving
    notes of the rack are numeric; pads with internal notes 60, 36, 92 come
    out as 92, 60, 36. *)
Theorem extract_drum_pads_named_sorted (drum_rack_elem : ET.Element)
    (pads : list pad) :
  Als._extract_drum_pads drum_rack_elem = Ok pads →
  Forall (λ p, name p ≠ "") pads
  ∧ StronglySorted (λ p q, (note q ≤ note p)%Z) pads
  ∧ (∀ rack, numeric_notes rack = true →
       ∃ ps, Als._extract_drum_pads rack = Ok ps)
  ∧ note <$> [Pad 60 "Snare"; Pad 36 "Tom"; Pad 92 "Kick"] = [60; 36; 92]%Z
  ∧ Als._extract_drum_pads Samples.rack_60_36_92
    = Ok [Pad 92 "Kick"; Pad 60 "Snare"; Pad 36 "Tom"].
Proof.
  intros H. split_and!; [| |apply extract_drum_pads_total|done|by vm_compute].
  - unfold Als._extract_drum_pads in H.
    destruct (ET.find _ drum_rack_elem) as [branches|].
    + destruct (Als.pads_loop _ []) as [ps|] eqn:El; [|done].
      simpl in H. injection H as <-.
      rewrite sort_desc_Permutation.
      eapply pads_loop_named; [|exact El]. constructor.
    + injection H as <-. constructor.
  - unfold Als._extract_drum_pads in H.
    destruct (ET.find _ drum_rack_elem) as [branches|].
    + destruct (Als.pads_loop _ []) as [ps|]; [|done].
      simpl in H. injection H as <-. apply sort_desc_sorted.
    + injection H as <-. constructor.
Qed.

Lemma extract_drum_pads_named_sorted_witness :
  Forall (λ p, name p ≠ "") [Pad 92 "Kick"; Pad 60 "Snare"; Pad 36 "Tom"]
  ∧ StronglySorted (λ p q, (note q ≤ note p)%Z)
      [Pad 92 "Kick"; Pad 60 "Snare"; Pad 36 "Tom"].
Proof.
  destruct (extract_drum_pads_named_sorted Samples.rack_60_36_92
              [Pad 92 "Kick"; Pad 60 "Snare"; Pad 36 "Tom"])
    as (Hn & Hs & _); [by vm_compute | by split].
Defined.

(** ** Classification *)

(** Whenever a [DrumGroupDevice] lies below a [DeviceChain] of the track,
    the drum rack is looked at first: the outcome is that of the pad
    extraction from the first one found, a drum-rack record when it returns
    and its exception when it raises; an [InstrumentGroupDevice] is never
    consulted. *)
Lemma drum_rack_checked_first (midi_track : ET.Element) (index : nat)
    (chain drum : ET.Element) :
  under chain midi_track → ET.tag chain = "DeviceChain" →
  under drum chain → ET.tag drum = "DrumGroupDevice" →
  ∃ d,
    ET.find [ET.Desc "DeviceChain"; ET.Desc "DrumGroupDevice"] midi_track
    = Some d
    ∧ Als._parse_midi_track midi_track index
      = match Als._extract_drum_pads d with
        | Ok pads =>
            Ok (Some (Track index
                        (Als.resolve_track_name midi_track index)
                        (drum_rack pads)))
        | Raise e => Raise e
        end.
Proof.
  intros Hc1 Ht1 Hd Htd. unfold Als._parse_midi_track.
  assert (is_Some (ET.find [ET.Desc "DeviceChain"; ET.Desc "DrumGroupDevice"]
                     midi_track)) as [d Hf].
  { apply (find_is_Some _ _ drum). unfold ET.findall. simpl.
    apply elem_of_flat_map. exists chain. split.
    - rewrite app_nil_r, <-Ht1. by apply under_descendants.
    - simpl. rewrite <-Htd. by apply under_descendants. }
  exists d. split; [done|]. rewrite Hf.
  by destruct (Als._extract_drum_pads d).
Qed.

Lemma iter_under d e : d ∈ flat_map ET.iter (ET.children e) → under d e.
Proof.
  revert d. induction e as [t a cs IH] using Element_ind'. intros d Hd.
  simpl in Hd. apply elem_of_flat_map in Hd as (c & Hc & Hd).
  rewrite iter_unfold in Hd. apply elem_of_cons in Hd as [->|Hd].
  - by apply under_child.
  - apply under_deeper with c; [|done].
    rewrite Forall_forall in IH. by apply IH.
Qed.

(** Membership in a list that evaluates to explicit elements. *)
Ltac elem_of_explicit :=
  vm_compute;
  repeat first [apply list_elem_of_here | apply list_elem_of_further].

(** C3 fails on the code through the unguarded [int()]: this track has a
    [DrumGroupDevice] and an [InstrumentGroupDevice] below its device chain,
    and classification raises instead of yielding a drum-rack record; with a
    numeric note the same track yields the drum-rack record. *)
Theorem drum_rack_priority_bad_note :
  (∃ chain1 drum chain2 instr,
     under chain1 Samples.track_both_bad_note
     ∧ ET.tag chain1 = "DeviceChain"
     ∧ under drum chain1 ∧ ET.tag drum = "DrumGroupDevice"
     ∧ under chain2 Samples.track_both_bad_note
     ∧ ET.tag chain2 = "DeviceChain"
     ∧ under instr chain2 ∧ ET.tag instr = "InstrumentGroupDevice")
  ∧ Als._parse_midi_track Samples.track_both_bad_note 1 = Raise ValueError
  ∧ Als._parse_midi_track Samples.track_both 1
    = Ok (Some (Track 1 "Kit"
                  (drum_rack [Pad 92 "Kick"; Pad 60 "Snare"; Pad 36 "Tom"]))).
Proof.
  split_and!; [|by vm_compute..].
  exists (Samples.node "DeviceChain"
            [Samples.drum_device [Samples.branch "Kick" "x"]]),
    (Samples.drum_device [Samples.branch "Kick" "x"]),
    (Samples.node "DeviceChain"
       [Samples.node "Devices"
          [Samples.node "InstrumentGroupDevice"
             [Samples.node "Branches"
                [Samples.node "InstrumentBranch"
                   [Samples.node "DeviceChain"
                      [Samples.drum_device [Samples.branch "Kick" "x"]]]]]]]),
    (Samples.node "InstrumentGroupDevice"
       [Samples.node "Branches"
          [Samples.node "InstrumentBranch"
             [Samples.node "DeviceChain"
                [Samples.drum_device [Samples.branch "Kick" "x"]]]]]).
  split_and!; try reflexivity; apply iter_under; elem_of_explicit.
Qed.

(** ** Branches without a note id *)

Lemma pads_loop_app l1 l2 acc :
  Als.pads_loop (l1 ++ l2) acc
  = Als.pads_loop l1 acc ≫= Als.pads_loop l2.
Proof.
  revert acc. induction l1 as [|b l1 IH]; intros acc; simpl; [done|].
  destruct (Als.pad_of_branch b) as [r|]; simpl; [apply IH | done].
Qed.

(** C4, as the code has it: a branch without a [ReceivingNote] element is
    skipped entirely (the pads are those of the branch list without it); a
    branch whose [ReceivingNote] has no [Value] attribute gets note 0 and is
    kept exactly when its name is not empty. *)
Theorem missing_receiving_note (b b' rn : ET.Element)
    (before after : list ET.Element) (acc : list pad) :
  ET.find [ET.Desc "ReceivingNote"] b = None →
  ET.find [ET.Desc "ReceivingNote"] b' = Some rn →
  ET.attrib rn !! "Value" = None →
  Als.pad_of_branch b = Ok None
  ∧ Als.pads_loop (before ++ b :: after) acc
    = Als.pads_loop (before ++ after) acc
  ∧ Als.pad_of_branch b'
    = Ok (if nonempty (Als.branch_pad_name b')
          then Some (Pad 0 (Als.branch_pad_name b')) else None).
Proof.
  intros Hb Hb' Hv.
  assert (Als.pad_of_branch b = Ok None) as Hskip.
  { unfold Als.pad_of_branch. by rewrite Hb. }
  split_and!; [done| |].
  - rewrite !pads_loop_app. destruct (Als.pads_loop before acc); [|done].
    simpl. by rewrite Hskip.
  - unfold Als.pad_of_branch, Als.receiving_note_value. rewrite Hb', Hv.
    simpl. by destruct (nonempty _).
Qed.

Lemma missing_receiving_note_witness :
  Als.pad_of_branch Samples.branch_no_note = Ok None
  ∧ Als.pads_loop
      ([Samples.branch "Snare" "60"] ++ Samples.branch_no_note
         :: [Samples.branch "Tom" "36"]) []
    = Als.pads_loop
        ([Samples.branch "Snare" "60"] ++ [Samples.branch "Tom" "36"]) []
  ∧ Als.pad_of_branch Samples.branch_no_value
    = Ok (if nonempty (Als.branch_pad_name Samples.branch_no_value)
          then Some (Pad 0 (Als.branch_pad_name Samples.branch_no_value))
          else None).
Proof.
  apply (missing_receiving_note Samples.branch_no_note
           Samples.branch_no_value (Samples.node "ReceivingNote" []));
    reflexivity.
Defined.

(** C4 as stated fails: a branch whose [ReceivingNote] has no [Value] is
    not skipped but comes out with note 0. *)
Lemma absent_note_id_defaults_to_0 :
  note_id Samples.branch_no_value = None
  ∧ Als._extract_drum_pads (Samples.drum_device [Samples.branch_no_value])
    = Ok [Pad 0 "Kick"]
  ∧ ¬ (∀ branch, note_id branch = None → Als.pad_of_branch branch = Ok None).
Proof.
  split_and!; [done | by vm_compute|].
  intros H. specialize (H Samples.branch_no_value eq_refl).
  vm_compute in H. discriminate H.
Qed.

(** ** A document that makes the extraction raise *)

(** C6 fails on the code: a well-formed document whose [ReceivingNote]
    carries a non-numeric [Value] makes [int()] raise, and nothing between
    there and the caller of [parse_als] catches it. *)
Theorem parse_root_raises_on_bad_note :
  Als.receiving_note_value (Samples.leaf "ReceivingNote" "x")
  = Raise ValueError
  ∧ Als._extract_drum_pads
      (Samples.drum_device [Samples.branch "Kick" "x"]) = Raise ValueError
  ∧ Als.parse_root Samples.doc_bad_note = Raise ValueError.
Proof. split_and!; by vm_compute. Qed.

Lemma parse_midi_track_total midi_track index :
  numeric_notes midi_track = true →
  ∃ r, Als._parse_midi_track midi_track index = Ok r.
Proof.
  intros Hn. unfold Als._parse_midi_track.
  destruct (ET.find [ET.Desc "DeviceChain"; ET.Desc "DrumGroupDevice"]
              midi_track) as [d|] eqn:Ef.
  - destruct (extract_drum_pads_total d) as [pads ->]; [|by eexists].
    eapply numeric_notes_sub; [exact Hn | by eapply find_iter].
  - destruct (ET.find [ET.Desc "DeviceChain"; ET.Desc "InstrumentGroupDevice"]
                midi_track); by eexists.
Qed.

Lemma tracks_loop_total midi_tracks track_index tracks :
  Forall (λ t, numeric_notes t = true) midi_tracks →
  ∃ r, Als.tracks_loop midi_tracks track_index tracks = Ok r.
Proof.
  intros H. revert track_index tracks.
  induction H as [|t ts Ht _ IH]; intros track_index tracks; simpl.
  - by eexists.
  - destruct (parse_midi_track_total t track_index Ht) as [[r|] ->]; simpl;
      apply IH.
Qed.

(** X16: With numeric receiving notes the extraction returns: every other
    missing node or attribute is covered by a fallback. *)
Lemma parse_root_total root :
  numeric_notes root = true → ∃ tracks, Als.parse_root root = Ok tracks.
Proof.
  intros Hn. apply tracks_loop_total, Forall_forall. intros t Ht.
  eapply numeric_notes_sub; [exact Hn | by apply findall_iter in Ht].
Qed.

(** ** Track names *)

Lemma parse_midi_track_name midi_track idx t :
  Als._parse_midi_track midi_track idx = Ok (Some t) →
  track_name t = Als.resolve_track_name midi_track idx ∧ index t = idx.
Proof.
  unfold Als._parse_midi_track.
  destruct (ET.find [ET.Desc "DeviceChain"; ET.Desc "DrumGroupDevice"]
              midi_track) as [d|].
  - destruct (Als._extract_drum_pads d); simpl; [|done].
    by intros [= <-].
  - destruct (ET.find [ET.Desc "DeviceChain"; ET.Desc "InstrumentGroupDevice"]
                midi_track); [|done].
    by intros [= <-].
Qed.

(** C7, as the code has it: the name comes from the first
    [Name/EffectiveName] node when there is one, else from the first
    [Name/UserName] node when there is one; it is that node's [Value]
    attribute, or ["Track {index}"] when the node has no such attribute or
    when there is no node.  The default is not empty, so an empty name can
    only be an empty [Value] attribute of the selected node. *)
Theorem track_name_resolution (midi_track : ET.Element) (idx : nat)
    (t : track) :
  Als._parse_midi_track midi_track idx = Ok (Some t) →
  let effective :=
    ET.find [ET.Desc "Name"; ET.Child "EffectiveName"] midi_track in
  let user := ET.find [ET.Desc "Name"; ET.Child "UserName"] midi_track in
  let dflt := "Track " +:+ Py.str_of_nat idx in
  (∀ e, effective = Some e →
     track_name t = default dflt (ET.attrib e !! "Value"))
  ∧ (∀ u, effective = None → user = Some u →
       track_name t = default dflt (ET.attrib u !! "Value"))
  ∧ (effective = None → user = None → track_name t = dflt)
  ∧ dflt ≠ ""
  ∧ (track_name t = "" →
     ∃ e, (effective = Some e ∨ (effective = None ∧ user = Some e))
          ∧ ET.attrib e !! "Value" = Some "").
Proof.
  intros [Hn _]%parse_midi_track_name effective user dflt.
  unfold Als.resolve_track_name in Hn.
  fold effective user in Hn. change (Als.default_track_name idx) with dflt in Hn.
  assert (dflt ≠ "") as Hd by done.
  split_and!; [| | |done|].
  - intros e He. by rewrite He in Hn.
  - intros u He Hu. by rewrite He, Hu in Hn.
  - intros He Hu. by rewrite He, Hu in Hn.
  - intros Hempty. rewrite Hempty in Hn.
    destruct effective as [e|] eqn:He.
    + exists e. split; [by left|]. unfold ET.get in Hn.
      destruct (ET.attrib e !! "Value"); simpl in Hn; congruence.
    + destruct user as [u|] eqn:Hu; [|congruence].
      exists u. split; [by right|]. unfold ET.get in Hn.
      destruct (ET.attrib u !! "Value"); simpl in Hn; congruence.
Qed.

Lemma track_name_resolution_witness :
  "Kit" = default ("Track " +:+ Py.str_of_nat 1)
            (ET.attrib (Samples.leaf "EffectiveName" "Kit") !! "Value")
  ∧ "Track " +:+ Py.str_of_nat 1 ≠ "".
Proof.
  destruct (track_name_resolution Samples.track_both 1
    (Track 1 "Kit" (drum_rack [Pad 92 "Kick"; Pad 60 "Snare"; Pad 36 "Tom"])))
    as (He & _ & _ & Hd & _); [by vm_compute|].
  split; [|exact Hd].
  apply (He (Samples.leaf "EffectiveName" "Kit")). by vm_compute.
Defined.

(** C7 as stated fails: an effective name with an empty [Value] gives a
    record with an empty name, although a user name is there. *)
Lemma empty_effective_name_kept :
  Als._parse_midi_track Samples.track_empty_name 1
  = Ok (Some (Track 1 "" (instrument_rack placeholders)))
  ∧ ¬ (∀ midi_track idx t,
         Als._parse_midi_track midi_track idx = Ok (Some t) →
         track_name t ≠ "").
Proof.
  assert (Als._parse_midi_track Samples.track_empty_name 1
          = Ok (Some (Track 1 "" (instrument_rack placeholders)))) as H
    by (by vm_compute).
  split; [done|]. intros Hall. by apply (Hall _ _ _ H).
Qed.

(** ** The second pass over the macro display names *)











(** ** More evaluation checks *)

Example instrument_def_ex :
  Hapax.generate_instrument_def
    (Track 1 "1-Lead" (instrument_rack
       ["Cutoff"; "Reso"; "Macro 3"; "Macro 4";
        "Macro 5"; "Macro 6"; "Macro 7"; "Macro 8"])) 3
  = "VERSION 1
TRACKNAME 1-Lead
TYPE POLY
OUTPORT USBD
OUTCHAN 3

[CC]
1 Cutoff
2 Reso
3 Macro 3
4 Macro 4
5 Macro 5
6 Macro 6
7 Macro 7
8 Macro 8
[/CC]

[ASSIGN]
1 CC:1
2 CC:2
3 CC:3
4 CC:4
5 CC:5
6 CC:6
7 CC:7
8 CC:8
[/ASSIGN]".
Proof. by vm_compute. Qed.
Example instrument_def_short :
  Hapax.generate_instrument_def_lines
    (Track 1 "Pad" (instrument_rack ["A"; "B"])) 1
  = ["VERSION 1"; "TRACKNAME Pad"; "TYPE POLY"; "OUTPORT USBD"; "OUTCHAN 1";
     ""; "[CC]"; "1 A"; "2 B"; "[/CC]"; ""; "[ASSIGN]"; "1 CC:1"; "2 CC:2";
     "[/ASSIGN]"].
Proof. by vm_compute. Qed.
Example safe_filename_ex :
  App._make_safe_filename " 1-Bass/Lead: A|B? " = "1-Bass-Lead- A-B-".
Proof. by vm_compute. Qed.
Example selected_pads_ex :
  App.selected_pads [Pad 92 "Kick"; Pad 60 "Snare"; Pad 36 "Tom"]
    [2; 7; 0; -1]%Z
  = Some [Pad 36 "Tom"; Pad 92 "Kick"; Pad 36 "Tom"].
Proof. by vm_compute. Qed.
Example selected_pads_below_range :
  App.selected_pads [Pad 92 "Kick"] [0; -2]%Z = None.
Proof. by vm_compute. Qed.
Example auto_split_small :
  App.drum_auto_split
    (Track 2 "Kit/A" (drum_rack [Pad 92 "Kick"; Pad 60 "Snare"])) 10
  = Ok [("Kit-A.txt", "VERSION 1
TRACKNAME Kit/A
TYPE DRUM
OUTPORT USBD
OUTCHAN 10

[DRUMLANES]
1:NULL:NULL:92 Kick
2:NULL:NULL:60 Snare
[/DRUMLANES]")].
Proof. by vm_compute. Qed.

(** ** Decimal numerals *)

Lemma str_of_int_of_nat (n : nat) :
  Py.str_of_int (Z.of_nat n) = Py.str_of_nat n.
Proof. by destruct n. Qed.

Lemma pretty_N_char_digit (x : N) : Py.is_digit (pretty_N_char x) = true.
Proof. unfold pretty_N_char. by repeat case_match. Qed.

Lemma pretty_N_go_chars (c : ascii) (x : N) (s : string) :
  In c (list_ascii_of_string (pretty_N_go x s)) →
  Py.is_digit c = true ∨ In c (list_ascii_of_string s).
Proof.
  revert s. induction (N.lt_wf_0 x) as [x _ IH]; intros s.
  destruct (decide (x = 0)%N) as [->|Hx].
  - rewrite pretty_N_go_0. by right.
  - rewrite pretty_N_go_step by lia. intros H.
    apply IH in H; [|apply N.div_lt; lia].
    destruct H as [H|H]; [by left|]. simpl in H.
    destruct H as [<-|H]; [left; apply pretty_N_char_digit | by right].
Qed.

Lemma pretty_N_chars (c : ascii) (x : N) :
  In c (list_ascii_of_string (pretty x)) → Py.is_digit c = true.
Proof.
  unfold pretty, pretty_N. case_decide.
  - simpl. by intros [<-|[]].
  - intros [Hd|[]]%pretty_N_go_chars. done.
Qed.

(** A printed integer consists of digits and at most a minus sign. *)
Lemma str_of_int_chars (c : ascii) (n : Z) :
  In c (list_ascii_of_string (Py.str_of_int n)) →
  Py.is_digit c = true ∨ c = "-"%char.
Proof.
  unfold Py.str_of_int, pretty, pretty_Z. destruct n as [|p|p].
  - simpl. intros [<-|[]]. by left.
  - intros H. left. by eapply (pretty_N_chars c (Npos p)).
  - simpl. intros [<-|H]; [by right|].
    left. by eapply (pretty_N_chars c (Npos p)).
Qed.

Lemma str_of_nat_chars (c : ascii) (n : nat) :
  In c (list_ascii_of_string (Py.str_of_nat n)) → Py.is_digit c = true.
Proof. apply pretty_N_chars. Qed.

Lemma list_ascii_of_string_app (s1 s2 : string) :
  list_ascii_of_string (s1 +:+ s2)
  = list_ascii_of_string s1 ++ list_ascii_of_string s2.
Proof. induction s1 as [|c s1 IH]; simpl; [done | by rewrite IH]. Qed.

Lemma In_string_app (c : ascii) (s1 s2 : string) :
  In c (list_ascii_of_string (s1 +:+ s2))
  ↔ In c (list_ascii_of_string s1) ∨ In c (list_ascii_of_string s2).
Proof. rewrite list_ascii_of_string_app. apply in_app_iff. Qed.

(** ** Definition texts keep one entry per line *)

Lemma newline_not_in_int (n : Z) :
  ¬ In "010"%char (list_ascii_of_string (Py.str_of_int n)).
Proof. intros [H|H]%str_of_int_chars; discriminate H. Qed.

Lemma newline_not_in_nat (n : nat) :
  ¬ In "010"%char (list_ascii_of_string (Py.str_of_nat n)).
Proof. intros H%str_of_nat_chars. discriminate H. Qed.

(** Closes [¬ In newline (...)] for a concatenation of literals, printed
    numbers and sanitized names. *)
Ltac no_newline :=
  let H := fresh in
  intros H; rewrite ?In_string_app in H;
  repeat (destruct H as [H|H]);
  first
    [ by apply newline_not_in_int in H
    | by apply newline_not_in_nat in H
    | by apply sanitize_name_no_newline in H
    | discriminate H
    | destruct H
    | simpl in H; intuition discriminate ].

Lemma drum_header_no_newline t midi_channel part_number :
  Forall (λ l, ¬ In "010"%char (list_ascii_of_string l))
    (Hapax.drum_header t midi_channel part_number).
Proof.
  unfold Hapax.drum_header, Hapax.drum_track_name. cbv zeta.
  destruct part_number; rewrite !Forall_cons, Forall_nil;
    split_and!; try done; no_newline.
Qed.

Lemma lane_lines_no_newline (pads : list pad) :
  Forall (λ l, ¬ In "010"%char (list_ascii_of_string l))
    (imap (λ k p, Hapax.lane_line (1 + k) p) pads).
Proof.
  apply Forall_forall. intros l Hl.
  apply list_elem_of_lookup in Hl as [k Hk].
  rewrite list_lookup_imap in Hk.
  destruct (pads !! k) as [p|]; [|done]. injection Hk as <-.
  unfold Hapax.lane_line. no_newline.
Qed.

Lemma drum_def_lines_no_newline t midi_channel pads part_number :
  Forall (λ l, ¬ In "010"%char (list_ascii_of_string l))
    (Hapax.generate_drum_def_lines t midi_channel pads part_number).
Proof.
  unfold Hapax.generate_drum_def_lines. rewrite lane_loop_spec.
  rewrite !Forall_app. split_and!.
  - apply drum_header_no_newline.
  - apply lane_lines_no_newline.
  - apply Forall_singleton. no_newline.
Qed.

Lemma drum_def_lines_length t midi_channel pads part_number :
  length (Hapax.generate_drum_def_lines t midi_channel pads part_number)
  = 8 + length pads.
Proof.
  unfold Hapax.generate_drum_def_lines. rewrite lane_loop_spec.
  rewrite !length_app, length_imap. simpl. lia.
Qed.

(** ** Joining lines and splitting them again *)

Lemma split_char_no_sep (sep : ascii) (l : string) :
  ¬ In sep (list_ascii_of_string l) → Py.split_char sep l = [l].
Proof.
  induction l as [|c l IH]; simpl; [done|]. intros H.
  destruct (Ascii.eqb_spec c sep) as [->|_]; [tauto|].
  rewrite IH by tauto. done.
Qed.

Lemma split_char_app_sep (sep : ascii) (l s : string) :
  ¬ In sep (list_ascii_of_string l) →
  Py.split_char sep (l +:+ String sep s) = l :: Py.split_char sep s.
Proof.
  induction l as [|c l IH]; simpl.
  - intros _. by rewrite Ascii.eqb_refl.
  - intros H. destruct (Ascii.eqb_spec c sep) as [->|_]; [tauto|].
    rewrite IH by tauto. done.
Qed.

(** Lines without the separator come back from the joined text. *)
Lemma split_char_join (sep : ascii) (ls : list string) :
  ls ≠ [] →
  Forall (λ l, ¬ In sep (list_ascii_of_string l)) ls →
  Py.split_char sep (Py.join (String sep EmptyString) ls) = ls.
Proof.
  intros Hne Hls. induction Hls as [|l ls Hl Hls IH]; [done|].
  destruct ls as [|l' ls'].
  - simpl. by apply split_char_no_sep.
  - change (Py.join (String sep EmptyString) (l :: l' :: ls'))
      with (l +:+ String sep (Py.join (String sep EmptyString) (l' :: ls'))).
    rewrite split_char_app_sep by done. by rewrite IH.
Qed.

Lemma drum_def_split t midi_channel pads part_number :
  Py.split_char "010"
    (Hapax.generate_drum_def t midi_channel pads part_number)
  = Hapax.generate_drum_def_lines t midi_channel pads part_number.
Proof.
  unfold Hapax.generate_drum_def, Py.newline. apply split_char_join.
  - intros E%(f_equal length). rewrite drum_def_lines_length in E. done.
  - apply drum_def_lines_no_newline.
Qed.

(** ** Drum definitions, line by line *)

(** C8: the definition text is the header, one lane line per pad in the
    given order and the closing tag, joined by newlines, and splitting the
    text at its newlines gives exactly these lines back; the [k]-th pad
    (counted from 0) is on lane [k + 1] as
    ["{lane}:NULL:NULL:{note} {name}"] with the sanitized pad name; the lane
    number is the position in this call's pad list plus one, and a given
    part number is appended to the sanitized track name as
    ["_p{partNumber}"]. *)
Theorem generate_drum_def_lanes (t : track) (midi_channel : Z)
    (pads : list pad) (part_number : option Z) (n : Z) :
  let lines :=
    Hapax.drum_header t midi_channel part_number
    ++ imap (λ k p, Py.str_of_nat (k + 1) +:+ ":NULL:NULL:"
                    +:+ Py.str_of_int (note p) +:+ " "
                    +:+ Hapax._sanitize_name (name p)) pads
    ++ ["[/DRUMLANES]"] in
  Hapax.generate_drum_def t midi_channel pads part_number
  = Py.join Py.newline lines
  ∧ Py.split_char "010"
      (Hapax.generate_drum_def t midi_channel pads part_number) = lines
  ∧ length (Hapax.drum_header t midi_channel part_number) = 7
  ∧ Hapax.drum_header t midi_channel part_number !! 6 = Some "[DRUMLANES]"
  ∧ Hapax.drum_header t midi_channel (Some n) !! 1
    = Some ("TRACKNAME " +:+ Hapax._sanitize_name (track_name t)
            +:+ "_p" +:+ Py.str_of_int n).
Proof.
  intros lines.
  assert (Hapax.generate_drum_def_lines t midi_channel pads part_number
          = lines) as Hlines.
  { unfold Hapax.generate_drum_def_lines, lines.
    rewrite lane_loop_spec, <-app_assoc. do 2 f_equal.
    apply imap_ext. intros k p _. simpl. unfold Hapax.lane_line.
    by replace (k + 1) with (S k) by lia. }
  split_and!; try done.
  - unfold Hapax.generate_drum_def. by rewrite Hlines.
  - by rewrite drum_def_split.
Qed.

(** X1: no line of a drum definition contains a newline, whatever the track
    name and the pad names are, so the text splits at its newlines into the
    lines it was joined from: the header, one line per pad and the closing
    tag, [8 + len(pads)] lines in all. *)
Theorem generate_drum_def_line_structure (t : track) (midi_channel : Z)
    (pads : list pad) (part_number : option Z) :
  Forall (λ l, ¬ In "010"%char (list_ascii_of_string l))
    (Hapax.generate_drum_def_lines t midi_channel pads part_number)
  ∧ length (Hapax.generate_drum_def_lines t midi_channel pads part_number)
    = 8 + length pads
  ∧ Py.split_char "010"
      (Hapax.generate_drum_def t midi_channel pads part_number)
    = Hapax.generate_drum_def_lines t midi_channel pads part_number
  ∧ length (Py.split_char "010"
              (Hapax.generate_drum_def t midi_channel pads part_number))
    = 8 + length pads.
Proof.
  split_and!.
  - apply drum_def_lines_no_newline.
  - apply drum_def_lines_length.
  - apply drum_def_split.
  - rewrite drum_def_split. apply drum_def_lines_length.
Qed.

(** ** Instrument definitions *)

Lemma cc_loop_spec (i : nat) (macros : list string) (lines : list string) :
  Hapax.cc_loop i macros lines
  = lines ++ imap (λ k m, Py.str_of_nat (i + k) +:+ " "
                          +:+ Hapax._sanitize_name m) macros.
Proof.
  revert i lines. induction macros as [|m macros IH]; intros i lines; simpl.
  - by rewrite app_nil_r.
  - rewrite IH, <-app_assoc. simpl. rewrite Nat.add_0_r.
    do 2 f_equal. apply imap_ext. intros k q _. simpl.
    by rewrite Nat.add_succ_r.
Qed.

Lemma assign_range (n : nat) :
  Hapax.range_1 1 (Z.min (Z.of_nat n + 1) 9)
  = (λ k, Z.of_nat (k + 1)) <$> seq 0 (n `min` 8).
Proof.
  unfold Hapax.range_1.
  replace (Z.to_nat (Z.min (Z.of_nat n + 1) 9 - 1)) with (n `min` 8) by lia.
  apply list_fmap_ext. intros _ k _. lia.
Qed.

Lemma instrument_def_lines_length (t : track) (midi_channel : Z) :
  length (Hapax.generate_instrument_def_lines t midi_channel)
  = 11 + 2 * (length (Hapax.track_macros t) `min` 8).
Proof.
  unfold Hapax.generate_instrument_def_lines. cbv zeta.
  rewrite cc_loop_spec. unfold Hapax.assign_loop.
  rewrite fold_left_snoc, assign_range.
  rewrite !length_app, length_imap, !length_fmap, length_seq, length_take.
  unfold Hapax.instrument_header. cbn [length]. lia.
Qed.

Lemma instrument_def_lines_no_newline (t : track) (midi_channel : Z) :
  Forall (λ l, ¬ In "010"%char (list_ascii_of_string l))
    (Hapax.generate_instrument_def_lines t midi_channel).
Proof.
  unfold Hapax.generate_instrument_def_lines. cbv zeta.
  rewrite cc_loop_spec. unfold Hapax.assign_loop.
  rewrite fold_left_snoc, assign_range.
  rewrite !Forall_app. split_and!.
  - unfold Hapax.instrument_header.
    rewrite !Forall_cons, Forall_nil. split_and!; try done; no_newline.
  - apply Forall_forall. intros l Hl.
    apply list_elem_of_lookup in Hl as [k Hk].
    rewrite list_lookup_imap in Hk.
    destruct (take 8 (Hapax.track_macros t) !! k) as [m|]; [|done].
    injection Hk as <-. no_newline.
  - apply Forall_singleton. no_newline.
  - apply Forall_singleton. no_newline.
  - apply Forall_singleton. no_newline.
  - apply Forall_fmap, Forall_forall. intros z _. simpl. no_newline.
  - apply Forall_singleton. no_newline.
Qed.

Lemma instrument_def_split (t : track) (midi_channel : Z) :
  Py.split_char "010" (Hapax.generate_instrument_def t midi_channel)
  = Hapax.generate_instrument_def_lines t midi_channel.
Proof.
  unfold Hapax.generate_instrument_def, Py.newline. apply split_char_join.
  - intros E%(f_equal length). rewrite instrument_def_lines_length in E.
    simpl in E. lia.
  - apply instrument_def_lines_no_newline.
Qed.

(** X2: the instrument definition is the header, one [CC] line per macro
    for at most the first eight macros, and an [ASSIGN] block with exactly
    as many lines, line [k] mapping slot [k] to controller [k], joined by
    newlines; splitting the text at its newlines gives exactly these lines
    back. *)
Theorem generate_instrument_def_blocks (t : track) (midi_channel : Z) :
  let macros := Hapax.track_macros t in
  let lines :=
    Hapax.instrument_header t midi_channel
    ++ imap (λ k m, Py.str_of_nat (k + 1) +:+ " "
                    +:+ Hapax._sanitize_name m) (take 8 macros)
    ++ ["[/CC]"; ""; "[ASSIGN]"]
    ++ ((λ k, Py.str_of_nat (k + 1) +:+ " CC:" +:+ Py.str_of_nat (k + 1))
          <$> seq 0 (length macros `min` 8))
    ++ ["[/ASSIGN]"] in
  Hapax.generate_instrument_def t midi_channel = Py.join Py.newline lines
  ∧ Py.split_char "010" (Hapax.generate_instrument_def t midi_channel)
    = lines
  ∧ length (take 8 macros) = length macros `min` 8.
Proof.
  intros macros lines.
  assert (Hapax.generate_instrument_def_lines t midi_channel = lines)
    as Hlines.
  { unfold Hapax.generate_instrument_def_lines, lines.
    fold macros. cbv zeta.
    rewrite cc_loop_spec. unfold Hapax.assign_loop.
    rewrite fold_left_snoc, assign_range, <-list_fmap_compose.
    rewrite <-!app_assoc. f_equal. f_equal.
    - apply imap_ext. intros k m _. simpl.
      by replace (k + 1) with (S k) by lia.
    - cbn [app]. do 3 f_equal. f_equal.
      apply list_fmap_ext. intros _ k _. simpl.
      by rewrite !str_of_int_of_nat. }
  split_and!.
  - unfold Hapax.generate_instrument_def. by rewrite Hlines.
  - by rewrite instrument_def_split.
  - rewrite length_take. lia.
Qed.

(** X3: No line of an instrument definition contains a newline, and a track with
    [n] macros gives [11 + 2 * min(n, 8)] lines. *)
Theorem generate_instrument_def_line_structure (t : track)
    (midi_channel : Z) :
  Forall (λ l, ¬ In "010"%char (list_ascii_of_string l))
    (Hapax.generate_instrument_def_lines t midi_channel)
  ∧ length (Hapax.generate_instrument_def_lines t midi_channel)
    = 11 + 2 * (length (Hapax.track_macros t) `min` 8).
Proof.
  split;
    [apply instrument_def_lines_no_newline | apply instrument_def_lines_length].
Qed.

(** ** Names that sanitization leaves alone *)

(** X4: A sanitized name has no newline, no carriage return and no whitespace
    at either end. *)
Theorem sanitize_name_clean (x : string) :
  ¬ In "010"%char (list_ascii_of_string (Hapax._sanitize_name x))
  ∧ ¬ In "013"%char (list_ascii_of_string (Hapax._sanitize_name x))
  ∧ Py.lstrip_with Py.isspace (Hapax._sanitize_name x) = Hapax._sanitize_name x
  ∧ Py.rstrip_with Py.isspace (Hapax._sanitize_name x) = Hapax._sanitize_name x.
Proof.
  split_and!.
  - apply sanitize_name_no_newline.
  - apply sanitize_name_no_return.
  - rewrite sanitize_name_unfold. unfold Py.strip, Py.strip_with.
    pose proof (lstrip_with_head Py.isspace
      (Hapax.cut_32 (Py.remove_char "013" (Py.replace_char "010" " " x))))
      as Hh.
    destruct (Py.lstrip_with Py.isspace _) as [|c r]; [done|].
    destruct (rstrip_with_head Py.isspace c r Hh) as [r' ->].
    by apply lstrip_with_fixed.
  - rewrite sanitize_name_unfold. apply rstrip_with_idemp.
Qed.

(** X5: Sanitization returns a name unchanged exactly when the name has at most
    32 characters, no newline, no carriage return and no whitespace at
    either end. *)
Theorem sanitize_name_fixed_points (x : string) :
  Hapax._sanitize_name x = x
  ↔ String.length x ≤ 32
    ∧ ¬ In "010"%char (list_ascii_of_string x)
    ∧ ¬ In "013"%char (list_ascii_of_string x)
    ∧ Py.strip x = x.
Proof.
  split.
  - intros H. rewrite <-H. split_and!.
    + apply sanitize_name_length.
    + apply sanitize_name_no_newline.
    + apply sanitize_name_no_return.
    + rewrite sanitize_name_unfold. apply strip_with_idemp.
  - intros (Hl & Hn & Hr & Hs). rewrite sanitize_name_unfold.
    rewrite replace_char_absent, remove_char_absent, cut_32_short; done.
Qed.

(** ** Group sizes *)

Lemma range_len_nat (n g : nat) :
  0 < n → 0 < g →
  Z.to_nat (Hapax.range_len 0 (Z.of_nat n) (Z.of_nat g)) = S ((n - 1) / g).
Proof.
  intros Hn Hg. unfold Hapax.range_len.
  destruct (Z.ltb_spec 0 (Z.of_nat g)); [|lia].
  destruct (Z.ltb_spec 0 (Z.of_nat n)); [|lia]. simpl.
  replace (Z.of_nat n - 1 - 0)%Z with (Z.of_nat (n - 1)) by lia.
  rewrite <-Nat2Z.inj_div. lia.
Qed.

(** X6: For a positive group size and at least one pad there are
    [ceil(len(pads) / group_size)] groups, none of them empty, and every
    group but the last has exactly [group_size] pads. *)
Theorem split_pads_group_sizes {A} (pads : list A) (group_size : Z) :
  (0 < group_size)%Z → pads ≠ [] →
  ∃ groups,
    Hapax.split_pads_into_groups pads group_size = Ok groups
    ∧ length groups = S ((length pads - 1) / Z.to_nat group_size)
    ∧ ∀ k grp, groups !! k = Some grp →
        grp ≠ []
        ∧ (S k < length groups →
           Z.of_nat (length grp) = group_size).
Proof.
  intros Hg Hne. eexists. split; [by apply split_pads_chunks|].
  set (g := Z.to_nat group_size).
  assert (0 < g) as Hg' by lia.
  assert (0 < length pads) as Hn by (destruct pads; [done | simpl; lia]).
  assert (Z.to_nat (Hapax.range_len 0 (Z.of_nat (length pads)) group_size)
          = S ((length pads - 1) / g)) as Hcnt.
  { rewrite <-(Z2Nat.id group_size) at 1 by lia. by apply range_len_nat. }
  rewrite Hcnt, length_fmap, length_seq. split; [done|].
  intros k grp Hk. rewrite list_lookup_fmap in Hk.
  destruct (seq 0 (S ((length pads - 1) / g)) !! k) as [j|] eqn:Hj; [|done].
  apply lookup_seq in Hj as [-> Hlt]. simpl in Hk. injection Hk as <-.
  pose proof (Nat.div_mod (length pads - 1) g ltac:(lia)) as Hdm.
  pose proof (Nat.mod_upper_bound (length pads - 1) g ltac:(lia)) as Hub.
  set (q := (length pads - 1) / g) in *.
  assert (k * g ≤ q * g) as Hkq by (apply Nat.mul_le_mono_r; lia).
  split.
  - intros Hnil%(f_equal length). rewrite length_take, length_drop in Hnil.
    simpl in Hnil. lia.
  - intros Hlast. rewrite length_take, length_drop.
    assert (S k * g ≤ q * g) as Hkq' by (apply Nat.mul_le_mono_r; lia).
    simpl in Hkq'. lia.
Qed.

Lemma split_pads_group_sizes_witness :
  ∃ groups,
    Hapax.split_pads_into_groups [1; 2; 3; 4; 5; 6; 7; 8; 9; 10] 4%Z
    = Ok groups
    ∧ length groups = 3.
Proof.
  destruct (split_pads_group_sizes [1; 2; 3; 4; 5; 6; 7; 8; 9; 10] 4%Z)
    as (groups & Hs & Hl & _); [lia | done |].
  exists groups. by split.
Defined.

(** X7: With at least one pad, a group size of zero makes [range()] raise and a
    negative group size returns no groups at all, so the pads are lost. *)
Theorem split_pads_degenerate_sizes {A} (pads : list A) (group_size : Z) :
  pads ≠ [] → (group_size ≤ 0)%Z →
  Hapax.split_pads_into_groups pads group_size
  = if decide (group_size = 0%Z) then Raise ValueError else Ok [].
Proof.
  intros Hne Hg. unfold Hapax.split_pads_into_groups.
  destruct pads as [|p pads']; [done|]. unfold Hapax.range.
  case_decide as Hz.
  - by rewrite Hz.
  - destruct (Z.eqb_spec group_size 0); [done|].
    unfold Hapax.range_len.
    destruct (Z.ltb_spec 0 group_size); [lia|].
    destruct (Z.ltb_spec (Z.of_nat (length (p :: pads'))) 0); [lia|].
    by rewrite andb_false_r.
Qed.

Lemma split_pads_degenerate_sizes_witness :
  Hapax.split_pads_into_groups [1; 2; 3] (-2)%Z = Ok []
  ∧ Hapax.split_pads_into_groups [1; 2; 3] 0%Z = Raise ValueError.
Proof.
  split.
  - apply (split_pads_degenerate_sizes [1; 2; 3] (-2)%Z); [done | lia].
  - apply (split_pads_degenerate_sizes [1; 2; 3] 0%Z); [done | lia].
Defined.

(** ** File names *)

Lemma replace_char_In (a b c : ascii) (s : string) :
  In c (list_ascii_of_string (Py.replace_char a b s)) →
  c = b ∨ In c (list_ascii_of_string s).
Proof.
  induction s as [|d s IH]; simpl; [tauto|].
  destruct (Ascii.eqb_spec d a); intros [<-|H]; tauto.
Qed.

Lemma replace_char_length (a b : ascii) (s : string) :
  String.length (Py.replace_char a b s) = String.length s.
Proof. induction s as [|d s IH]; simpl; [done | by rewrite IH]. Qed.

(** Peels the replacements of [_make_safe_filename] off a membership
    hypothesis for a character other than the dash. *)
Ltac peel_replace H :=
  repeat first
    [ by apply replace_char_not_In in H
    | apply replace_char_In in H as [H|H]; [discriminate H|] ].

Lemma safe_filename_unsafe_free (name : string) :
  Forall (λ c, ¬ In c (list_ascii_of_string (App._make_safe_filename name)))
    unsafe_chars.
Proof.
  unfold unsafe_chars, App._make_safe_filename. cbv zeta.
  rewrite !Forall_cons, Forall_nil.
  split_and!; try done; intros H%strip_with_In; peel_replace H.
Qed.

(** X8: A safe file name contains none of the nine replaced characters, is not
    longer than the name it comes from, and making it safe again changes
    nothing. *)
Theorem make_safe_filename_safe (name : string) :
  Forall (λ c, ¬ In c (list_ascii_of_string (App._make_safe_filename name)))
    unsafe_chars
  ∧ String.length (App._make_safe_filename name) ≤ String.length name
  ∧ App._make_safe_filename (App._make_safe_filename name)
    = App._make_safe_filename name.
Proof.
  split_and!.
  - apply safe_filename_unsafe_free.
  - unfold App._make_safe_filename. cbv zeta. unfold Py.strip.
    etrans; [apply strip_with_length|].
    by rewrite !replace_char_length.
  - pose proof (safe_filename_unsafe_free name) as Hfree.
    unfold unsafe_chars in Hfree.
    rewrite !Forall_cons in Hfree.
    destruct Hfree as (H1 & H2 & H3 & H4 & H5 & H6 & H7 & H8 & H9 & _).
    set (safe := App._make_safe_filename name) in *.
    unfold App._make_safe_filename at 1. cbv zeta.
    rewrite (replace_char_absent "/" "-" safe) by done.
    rewrite (replace_char_absent "092" "-" safe) by done.
    rewrite (replace_char_absent ":" "-" safe) by done.
    rewrite (replace_char_absent "*" "-" safe) by done.
    rewrite (replace_char_absent "?" "-" safe) by done.
    rewrite (replace_char_absent "034" "-" safe) by done.
    rewrite (replace_char_absent "<" "-" safe) by done.
    rewrite (replace_char_absent ">" "-" safe) by done.
    rewrite (replace_char_absent "|" "-" safe) by done.
    unfold safe, App._make_safe_filename. cbv zeta.
    apply strip_with_idemp.
Qed.

(** ** Pad selection by index *)

Lemma getitem_None {A} (l : list A) (i : Z) :
  (i < Z.of_nat (length l))%Z →
  App.getitem l i = None ↔ (i < - Z.of_nat (length l))%Z.
Proof.
  intros Hi. unfold App.getitem.
  destruct (Z.leb_spec 0 i).
  - rewrite lookup_ge_None. lia.
  - destruct (Z.leb_spec (- Z.of_nat (length l)) i).
    + rewrite lookup_ge_None. lia.
    + split; [lia | done].
Qed.

(** X9: The selection fails with [IndexError] exactly when some index lies
    below [-len(all_pads)]; indices at or above [len(all_pads)] never make
    it fail. *)
Theorem selected_pads_index_error (all_pads : list pad)
    (pad_indices : list Z) :
  App.selected_pads all_pads pad_indices = None
  ↔ Exists (λ i, (i < - Z.of_nat (length all_pads))%Z) pad_indices.
Proof.
  induction pad_indices as [|i rest IH]; simpl.
  - split; [done | by intros ?%Exists_nil].
  - rewrite Exists_cons.
    destruct (Z.ltb_spec i (Z.of_nat (length all_pads))) as [Hlt|Hge].
    + pose proof (getitem_None all_pads i Hlt) as Hg.
      destruct (App.getitem all_pads i) as [p|]; simpl.
      * destruct (App.selected_pads all_pads rest) as [ps|]; simpl.
        -- split; [done|]. intros [Hi|Hr]; [|by apply IH in Hr].
           by apply Hg in Hi.
        -- split; [intros _; right; by apply IH | done].
      * split; [intros _; left; by apply Hg | done].
    + rewrite IH. split; [by right|]. intros [Hi|Hr]; [lia | done].
Qed.

(** X10: With non-negative indices the selection is the pads at the indices that
    are in range, in the order of the indices; the others are dropped
    silently. *)
Theorem selected_pads_in_range (all_pads : list pad) (pad_indices : list Z) :
  Forall (λ i, (0 ≤ i)%Z) pad_indices →
  App.selected_pads all_pads pad_indices
  = Some (omap (λ i, all_pads !! Z.to_nat i) pad_indices).
Proof.
  induction 1 as [|i rest Hi _ IH]; simpl; [done|].
  unfold App.getitem.
  destruct (Z.leb_spec 0 i); [|lia].
  destruct (Z.ltb_spec i (Z.of_nat (length all_pads))) as [Hlt|Hge].
  - destruct (lookup_lt_is_Some_2 all_pads (Z.to_nat i)) as [p Hp]; [lia|].
    rewrite Hp, IH. done.
  - rewrite (lookup_ge_None_2 all_pads (Z.to_nat i)) by lia. done.
Qed.

Lemma selected_pads_in_range_witness :
  App.selected_pads [Pad 92 "Kick"; Pad 60 "Snare"; Pad 36 "Tom"] [2; 7; 0]%Z
  = Some [Pad 36 "Tom"; Pad 92 "Kick"].
Proof.
  apply (selected_pads_in_range
           [Pad 92 "Kick"; Pad 60 "Snare"; Pad 36 "Tom"] [2; 7; 0]%Z).
  repeat constructor; lia.
Defined.

(** Groups of eight: the statement of the partition for the default size,
    with lengths as natural numbers. *)
Lemma split_pads_total_partition_aux {A} (pads : list A) :
  ∃ groups,
    Hapax.split_pads_into_groups pads 8%Z = Ok groups
    ∧ concat groups = pads
    ∧ Forall (λ g, length g ≤ 8) groups
    ∧ (pads = [] → groups = []).
Proof.
  destruct (decide (pads = [])) as [->|Hne].
  { exists []. by split_and!. }
  eexists. split; [by apply split_pads_chunks|]. split_and!; [| |done].
  - rewrite concat_chunks. apply take_ge.
    assert (0 < length pads) by (destruct pads; [done | simpl; lia]).
    pose proof (range_len_covers (Z.of_nat (length pads)) 8).
    pose proof (range_len_nonneg 0 (Z.of_nat (length pads)) 8).
    nia.
  - apply Forall_fmap, Forall_forall. intros k _. simpl.
    rewrite length_take. lia.
Qed.

(** ** The default drum export *)

Lemma auto_split_loop_spec (t : track) (midi_channel : Z) (n i : nat)
    (groups : list (list pad)) (written : list App.entry) :
  App.auto_split_loop t midi_channel n i groups written
  = written
    ++ imap (λ k group,
         (App._make_safe_filename (track_name t)
            +:+ (if 1 <? n then "_part" +:+ Py.str_of_nat (i + k) else "")
            +:+ ".txt",
          Hapax.generate_drum_def t midi_channel group
            (if 1 <? n then Some (Z.of_nat (i + k)) else None))) groups.
Proof.
  revert i written.
  induction groups as [|g groups IH]; intros i written; simpl.
  - by rewrite app_nil_r.
  - rewrite IH, <-app_assoc. simpl. rewrite Nat.add_0_r.
    do 2 f_equal. apply imap_ext. intros k q _. simpl.
    by rewrite Nat.add_succ_r.
Qed.

(** X11: The default export writes one entry per group of eight pads, in order:
    with a single group the file is named after the track and the track name
    gets no part suffix; with several groups entry [k] is named
    ["{name}_part{k}.txt"] and encodes group [k] with part number [k].  No
    entry has more than eight lanes, and no pads give no entry. *)
Theorem drum_auto_split_entries (t : track) (midi_channel : Z) :
  ∃ groups,
    Hapax.split_pads_into_groups (App.track_pads t) 8%Z = Ok groups
    ∧ concat groups = App.track_pads t
    ∧ Forall (λ g, length g ≤ 8) groups
    ∧ (App.track_pads t = [] → groups = [])
    ∧ App.drum_auto_split t midi_channel
      = Ok (imap (λ k group,
              (App._make_safe_filename (track_name t)
                 +:+ (if 1 <? length groups
                      then "_part" +:+ Py.str_of_nat (k + 1) else "")
                 +:+ ".txt",
               Hapax.generate_drum_def t midi_channel group
                 (if 1 <? length groups
                  then Some (Z.of_nat (k + 1)) else None))) groups).
Proof.
  destruct (split_pads_total_partition_aux (App.track_pads t))
    as (groups & Hs & Hc & Hf & He).
  exists groups. split_and!; try done.
  unfold App.drum_auto_split. rewrite Hs. simpl.
  rewrite auto_split_loop_spec, app_nil_l. f_equal.
  apply imap_ext. intros k g _. simpl.
  by replace (k + 1) with (S k) by lia.
Qed.

(** X12: A drum track with one to eight pads is exported as a single file,
    named after the track alone, holding all its pads and no part number. *)
Theorem drum_auto_split_single (t : track) (midi_channel : Z) :
  0 < length (App.track_pads t) ≤ 8 →
  App.drum_auto_split t midi_channel
  = Ok [(App._make_safe_filename (track_name t) +:+ ".txt",
         Hapax.generate_drum_def t midi_channel (App.track_pads t) None)].
Proof.
  intros [Hpos Hle]. unfold App.drum_auto_split.
  assert (App.track_pads t ≠ []) as Hne.
  { intros E. rewrite E in Hpos. simpl in Hpos. lia. }
  rewrite split_pads_chunks by (done || lia).
  rewrite <-(Z2Nat.id 8) at 1 by lia.
  rewrite range_len_nat by lia.
  replace ((length (App.track_pads t) - 1) / Z.to_nat 8) with 0
    by (symmetry; apply Nat.div_small; lia).
  simpl. rewrite drop_0, take_ge by lia. done.
Qed.

Lemma drum_auto_split_single_witness :
  App.drum_auto_split
    (Track 2 "Kit/A" (drum_rack [Pad 92 "Kick"; Pad 60 "Snare"])) 10
  = Ok [(App._make_safe_filename "Kit/A" +:+ ".txt",
         Hapax.generate_drum_def
           (Track 2 "Kit/A" (drum_rack [Pad 92 "Kick"; Pad 60 "Snare"])) 10
           [Pad 92 "Kick"; Pad 60 "Snare"] None)].
Proof.
  apply (drum_auto_split_single
           (Track 2 "Kit/A" (drum_rack [Pad 92 "Kick"; Pad 60 "Snare"])) 10).
  simpl. lia.
Defined.

(** ** Track indices and dropped tracks *)

Lemma tracks_loop_indices midi_tracks i acc tracks :
  index <$> acc = seq 1 (length acc) → i = S (length acc) →
  Als.tracks_loop midi_tracks i acc = Ok tracks →
  index <$> tracks = seq 1 (length tracks)
  ∧ length acc ≤ length tracks ≤ length acc + length midi_tracks.
Proof.
  revert i acc. induction midi_tracks as [|mt rest IH]; intros i acc Hacc Hi.
  - simpl. intros [= <-]. split; [done | lia].
  - simpl. destruct (Als._parse_midi_track mt i) as [[t|]|] eqn:Ep;
      simpl; [| |done].
    + intros Hr. apply parse_midi_track_name in Ep as [_ Hidx].
      apply IH in Hr as [Hs Hl].
      * split; [done|]. rewrite length_app in Hl. simpl in Hl. lia.
      * rewrite fmap_app, length_app, Hacc. simpl.
        rewrite Hidx, Hi, Nat.add_1_r. by rewrite seq_S.
      * rewrite length_app. simpl. lia.
    + intros Hr. apply IH in Hr as [Hs Hl]; [|done..].
      split; [done | lia].
Qed.

(** X13: The tracks [parse_als] returns are numbered 1, 2, 3, ... in the order
    they are returned, and there are at most as many as [MidiTrack] nodes. *)
Theorem parse_root_indices_dense (root : ET.Element) (tracks : list track) :
  Als.parse_root root = Ok tracks →
  index <$> tracks = seq 1 (length tracks)
  ∧ length tracks
    ≤ length (ET.findall [ET.Desc "Tracks"; ET.Child "MidiTrack"] root).
Proof.
  intros H. apply tracks_loop_indices in H as [Hs Hl]; [|done..].
  split; [done|]. simpl in Hl. lia.
Qed.

Lemma parse_root_indices_dense_witness :
  index <$> [Track 1 "Kit"
               (drum_rack [Pad 92 "Kick"; Pad 60 "Snare"; Pad 36 "Tom"])]
  = seq 1 1.
Proof.
  destruct (parse_root_indices_dense
              (Samples.live_set [Samples.track_plain; Samples.track_both])
              [Track 1 "Kit"
                 (drum_rack [Pad 92 "Kick"; Pad 60 "Snare"; Pad 36 "Tom"])])
    as [H _]; [by vm_compute | exact H].
Defined.

(** X14: A track without a [DrumGroupDevice] and without an
    [InstrumentGroupDevice] below a [DeviceChain] yields no record, and the
    result of the loop over the tracks is what it would be without that
    track: it takes no index. *)
Theorem unclassified_track_dropped (midi_track : ET.Element)
    (before after : list ET.Element) (i : nat) (acc : list track) :
  ET.find [ET.Desc "DeviceChain"; ET.Desc "DrumGroupDevice"] midi_track
  = None →
  ET.find [ET.Desc "DeviceChain"; ET.Desc "InstrumentGroupDevice"] midi_track
  = None →
  Als.tracks_loop (before ++ midi_track :: after) i acc
  = Als.tracks_loop (before ++ after) i acc.
Proof.
  intros Hd Hi.
  assert (∀ idx, Als._parse_midi_track midi_track idx = Ok None) as Hnone.
  { intros idx. unfold Als._parse_midi_track. by rewrite Hd, Hi. }
  revert i acc. induction before as [|mt before IH]; intros i acc; simpl.
  - by rewrite Hnone.
  - destruct (Als._parse_midi_track mt i) as [[t|]|]; simpl; [apply IH..|done].
Qed.

Lemma unclassified_track_dropped_witness :
  Als.tracks_loop ([Samples.track_both] ++ Samples.track_plain
                     :: [Samples.track_empty_name]) 1 []
  = Als.tracks_loop ([Samples.track_both] ++ [Samples.track_empty_name]) 1 [].
Proof.
  apply (unclassified_track_dropped Samples.track_plain); by vm_compute.
Defined.

(** ** The outcomes of classification *)

(** X15: [_parse_midi_track] returns nothing exactly when neither device is
    found; a record has the index it was asked for, is a drum rack only when
    a [DrumGroupDevice] was found, and is an instrument rack, with eight
    macros, only when no [DrumGroupDevice] but an [InstrumentGroupDevice] was
    found; an exception can only come from a drum rack. *)
Theorem parse_midi_track_outcomes (midi_track : ET.Element) (idx : nat) :
  let drum :=
    ET.find [ET.Desc "DeviceChain"; ET.Desc "DrumGroupDevice"] midi_track in
  let instr :=
    ET.find [ET.Desc "DeviceChain"; ET.Desc "InstrumentGroupDevice"]
      midi_track in
  (Als._parse_midi_track midi_track idx = Ok None
   ↔ drum = None ∧ instr = None)
  ∧ (∀ t, Als._parse_midi_track midi_track idx = Ok (Some t) →
       index t = idx
       ∧ match kind t with
         | drum_rack _ => is_Some drum
         | instrument_rack macros =>
             drum = None ∧ is_Some instr ∧ length macros = 8
         end)
  ∧ (∀ e, Als._parse_midi_track midi_track idx = Raise e → is_Some drum).
Proof.
  intros drum instr. unfold Als._parse_midi_track. fold drum instr.
  destruct drum as [d|]; [|destruct instr as [r|]].
  - destruct (Als._extract_drum_pads d) as [pads|]; simpl; split_and!.
    + split; [done | by intros [? _]].
    + intros t [= <-]. split; [done | by eexists].
    + done.
    + split; [done | by intros [? _]].
    + done.
    + intros _ _. by eexists.
  - split_and!.
    + split; [done | by intros [_ ?]].
    + intros t [= <-]. simpl. split_and!; [done | done | by eexists|].
      apply ensure_8_length.
    + done.
  - split_and!; done.
Qed.

Lemma parse_root_total_witness :
  ∃ tracks,
    Als.parse_root (Samples.live_set [Samples.track_both]) = Ok tracks.
Proof.
  apply (parse_root_total (Samples.live_set [Samples.track_both])).
  by vm_compute.
Defined.

(** ** From a parsed instrument rack to its definition *)

(** X17: An instrument-rack record that [_parse_midi_track] returns always
    encodes to 27 lines: the header, eight [CC] lines and eight [ASSIGN]
    lines with their tags. *)
Theorem parsed_instrument_def_lines (midi_track : ET.Element) (idx : nat)
    (t : track) (macros : list string) (midi_channel : Z) :
  Als._parse_midi_track midi_track idx = Ok (Some t) →
  kind t = instrument_rack macros →
  length macros = 8
  ∧ length (Hapax.generate_instrument_def_lines t midi_channel) = 27.
Proof.
  intros Hp Hk. unfold Als._parse_midi_track in Hp.
  destruct (ET.find [ET.Desc "DeviceChain"; ET.Desc "DrumGroupDevice"]
              midi_track) as [d|].
  { destruct (Als._extract_drum_pads d); simpl in Hp; [|done].
    injection Hp as <-. done. }
  destruct (ET.find [ET.Desc "DeviceChain"; ET.Desc "InstrumentGroupDevice"]
              midi_track) as [r|]; [|done].
  injection Hp as <-. simpl in Hk. injection Hk as <-.
  pose proof (ensure_8_length
    (if Als.second_pass_runs (Als.first_pass r)
     then Als.second_pass r (Als.first_pass r) else Als.first_pass r)) as Hlen.
  split; [exact Hlen|].
  rewrite instrument_def_lines_length. unfold Hapax.track_macros. simpl.
  unfold Als._extract_macros. by rewrite Hlen.
Qed.

Lemma parsed_instrument_def_lines_witness :
  length placeholders = 8
  ∧ length (Hapax.generate_instrument_def_lines
              (Track 1 "" (instrument_rack placeholders)) 3) = 27.
Proof.
  apply (parsed_instrument_def_lines Samples.track_empty_name 1
           (Track 1 "" (instrument_rack placeholders)) placeholders 3);
    by vm_compute.
Defined.

(** ** Pads on the same note *)

Lemma insert_desc_filter (n : Z) (p : pad) (l : list pad) :
  filter (λ q, note q = n) (Als.insert_desc p l)
  = filter (λ q, note q = n) (p :: l).
Proof.
  induction l as [|q l IH]; simpl; [done|].
  destruct (Z.leb_spec (note q) (note p)) as [Hle|Hgt]; [done|].
  rewrite !filter_cons. rewrite filter_cons in IH.
  rewrite IH. repeat case_decide; try done. lia.
Qed.

Lemma sort_desc_filter (n : Z) (l : list pad) :
  filter (λ q, note q = n) (Als.sort_desc l) = filter (λ q, note q = n) l.
Proof.
  induction l as [|p l IH]; simpl; [done|].
  by rewrite insert_desc_filter, !filter_cons, IH.
Qed.

(** X18: The pads returned are the pads collected from the branches, reordered:
    nothing is added or lost, and pads on the same note keep the order of
    their branches in the document. *)
Theorem extract_drum_pads_stable (drum_rack_elem branches : ET.Element)
    (collected : list pad) :
  ET.find [ET.Desc "Branches"] drum_rack_elem = Some branches →
  Als.pads_loop (ET.findall [ET.Desc "DrumBranch"] branches) []
  = Ok collected →
  ∃ pads,
    Als._extract_drum_pads drum_rack_elem = Ok pads
    ∧ pads ≡ₚ collected
    ∧ ∀ n, filter (λ p, note p = n) pads = filter (λ p, note p = n) collected.
Proof.
  intros Hb Hc. exists (Als.sort_desc collected).
  unfold Als._extract_drum_pads. rewrite Hb, Hc. split_and!.
  - done.
  - apply sort_desc_Permutation.
  - intros n. apply sort_desc_filter.
Qed.

Lemma extract_drum_pads_stable_witness :
  ∃ pads,
    Als._extract_drum_pads Samples.rack_same_note = Ok pads
    ∧ pads ≡ₚ [Pad 60 "A"; Pad 36 "B"; Pad 60 "C"]
    ∧ ∀ n, filter (λ p, note p = n) pads
           = filter (λ p, note p = n) [Pad 60 "A"; Pad 36 "B"; Pad 60 "C"].
Proof.
  apply (extract_drum_pads_stable Samples.rack_same_note
           (Samples.node "Branches"
              [Samples.branch "A" "60"; Samples.branch "B" "36";
               Samples.branch "C" "60"]));
    by vm_compute.
Defined.

(** ** Macro names without a [Macros] node *)

Lemma second_pass_step_shallow instrument_rack macros i :
  length macros ≤ i →
  Als.second_pass_step instrument_rack macros i
  = macros ++ option_list (shallow_name instrument_rack i).
Proof.
  intros Hi. unfold Als.second_pass_step, shallow_name.
  destruct (ET.find _ instrument_rack) as [d|]; [|by rewrite app_nil_r].
  simpl. destruct (nonempty _); [|by rewrite app_nil_r].
  destruct (Nat.ltb_spec i (length macros)); [lia | done].
Qed.

Lemma second_pass_fold_shallow instrument_rack len start macros :
  length macros ≤ start →
  fold_left (Als.second_pass_step instrument_rack) (seq start len) macros
  = macros ++ omap (shallow_name instrument_rack) (seq start len).
Proof.
  revert start macros.
  induction len as [|len IH]; intros start macros Hs; simpl.
  - by rewrite app_nil_r.
  - rewrite second_pass_step_shallow by done.
    rewrite IH.
    + rewrite <-app_assoc. f_equal.
      by destruct (shallow_name instrument_rack start).
    + rewrite length_app.
      destruct (shallow_name instrument_rack start); simpl; lia.
Qed.

Lemma pad_loop_spec (fuel : nat) (macros : list string) :
  length macros + fuel ≤ 8 →
  Als.pad_loop fuel macros
  = macros ++ (Als.macro_placeholder <$> seq (length macros) fuel).
Proof.
  revert macros. induction fuel as [|fuel IH]; intros macros H; simpl.
  - by rewrite app_nil_r.
  - destruct (Nat.ltb_spec (length macros) 8); [|lia].
    rewrite IH by (rewrite length_app; simpl; lia).
    rewrite <-app_assoc, length_app. simpl.
    by rewrite Nat.add_1_r.
Qed.

Lemma omap_seq_length {A} (f : nat → option A) (start len : nat) :
  length (omap f (seq start len)) ≤ len.
Proof.
  revert start. induction len as [|len IH]; intros start; [done|].
  specialize (IH (S start)). cbn [seq omap list_omap].
  destruct (f start); cbn [length]; lia.
Qed.

(** X19: Without a [Macros] node the display names found directly under the rack
    are packed at the front in slot order, whatever their slot numbers are,
    and the rest is filled with the placeholders of the remaining positions. *)
Theorem extract_macros_without_macros_node (instrument_rack : ET.Element) :
  ET.find [ET.Desc "Macros"] instrument_rack = None →
  let found := omap (shallow_name instrument_rack) (seq 0 8) in
  Als._extract_macros instrument_rack
  = found ++ (Als.macro_placeholder <$> seq (length found) (8 - length found)).
Proof.
  intros Hm found. unfold Als._extract_macros, Als.first_pass.
  rewrite Hm. simpl Als.second_pass_runs. cbv iota.
  unfold Als.second_pass.
  rewrite second_pass_fold_shallow by (simpl; lia).
  rewrite app_nil_l. fold found.
  pose proof (omap_seq_length (shallow_name instrument_rack) 0 8) as Hl.
  fold found in Hl. unfold Als.ensure_8.
  rewrite pad_loop_spec by lia.
  apply take_ge. rewrite length_app, length_fmap, length_seq. lia.
Qed.

Lemma extract_macros_without_macros_node_witness :
  Als._extract_macros Samples.rack_shallow_3
  = omap (shallow_name Samples.rack_shallow_3) (seq 0 8)
    ++ (Als.macro_placeholder
          <$> seq (length (omap (shallow_name Samples.rack_shallow_3)
                             (seq 0 8)))
                (8 - length (omap (shallow_name Samples.rack_shallow_3)
                               (seq 0 8)))).
Proof.
  apply (extract_macros_without_macros_node Samples.rack_shallow_3).
  by vm_compute.
Defined.
